(** * Nearest-hospital assignment and district aggregation

    A shallow embedding of the analysis core shared by the map scripts of
    the Bangkok "unhealthy city" project (src/BKK_Hospital_Default.py,
    src/BKK_Hospital_Distance_CSMBS.py,
    src/BKK_Hospital_Congestion_ByDistrict.py,
    src/Ratchathewi_Hospital_Rights_CSMBS.py):

    - [truthy], the fuzzy yes/no parser of eligibility columns, together
      with models of Python's [str.lower] and [float(str)] that it
      relies on (code points, Unicode decimal digits and spaces);
    - [comm_assigned], the loop that assigns each community its nearest
      hospital (a linear scan with strict [<]);
    - [hosp_weights], the per-hospital count of assigned communities;
    - [district_metrics_run], the per-district counters keyed by district
      name, and [out_features], their write-back into the features;
    - [choropleth_norm], the normalisation of the district sums;
    - [load_table], the loading of the two CSV tables and the pandas
      coercion of their count columns.

    Python strings are modelled as their UTF-8 bytes, decoded to code
    points where the code works on characters; a pandas cell that is
    missing (NaN or None) is [None]. *)

From Stdlib Require Import QArith Qabs ZArith Ascii String.
From stdpp Require Import base list gmap strings.

Open Scope list_scope.

(* ------------------------------------------------------------------ *)
(** ** Python [str] as UTF-8 bytes: code points and their Unicode
    properties (tables of Unicode 14.0, the version of Python 3.11) *)

Module PyStr.

Definition byte (c : ascii) : N := N_of_ascii c.

(** a continuation byte [10xxxxxx] *)
Definition cont (c : ascii) : bool := (128 <=? byte c)%N && (byte c <? 192)%N.

(** the code points of a UTF-8 text; [None] on bytes that are not
    UTF-8 (no Python [str] encodes to such bytes) *)
Fixpoint utf8_decode (l : list ascii) : option (list N) :=
  match l with
  | [] => Some []
  | b1 :: r1 =>
      let n1 := byte b1 in
      if (n1 <? 128)%N then cons n1 <$> utf8_decode r1
      else if (192 <=? n1)%N && (n1 <? 224)%N then
        match r1 with
        | b2 :: r2 =>
            if cont b2
            then cons (N.land n1 31 * 64 + N.land (byte b2) 63)%N <$> utf8_decode r2
            else None
        | [] => None
        end
      else if (224 <=? n1)%N && (n1 <? 240)%N then
        match r1 with
        | b2 :: b3 :: r3 =>
            if cont b2 && cont b3
            then cons (N.land n1 15 * 4096 + N.land (byte b2) 63 * 64
                       + N.land (byte b3) 63)%N <$> utf8_decode r3
            else None
        | _ => None
        end
      else if (240 <=? n1)%N && (n1 <? 248)%N then
        match r1 with
        | b2 :: b3 :: b4 :: r4 =>
            if cont b2 && cont b3 && cont b4
            then cons (N.land n1 7 * 262144 + N.land (byte b2) 63 * 4096
                       + N.land (byte b3) 63 * 64 + N.land (byte b4) 63)%N <$> utf8_decode r4
            else None
        | _ => None
        end
      else None
  end.

Definition utf8_encode_cp (cp : N) : list ascii :=
  if (cp <? 128)%N then [ascii_of_N cp]
  else if (cp <? 2048)%N then
    [ascii_of_N (192 + cp / 64); ascii_of_N (128 + cp mod 64)]
  else if (cp <? 65536)%N then
    [ascii_of_N (224 + cp / 4096); ascii_of_N (128 + (cp / 64) mod 64);
     ascii_of_N (128 + cp mod 64)]
  else
    [ascii_of_N (240 + cp / 262144); ascii_of_N (128 + (cp / 4096) mod 64);
     ascii_of_N (128 + (cp / 64) mod 64); ascii_of_N (128 + cp mod 64)].

Definition utf8_encode (cps : list N) : list ascii := flat_map utf8_encode_cp cps.

(** [str.lower] maps U+0130 to two code points and moves every other
    cased code point by a fixed offset: [(first, last, step, offset)]
    covers [first], [first + step], ..., [last]. *)
Definition lower_runs : list (N * N * N * Z) :=
  [
    (65, 90, 1, 32%Z); (192, 214, 1, 32%Z); (216, 222, 1, 32%Z); (256, 302, 2, 1%Z);
    (306, 310, 2, 1%Z); (313, 327, 2, 1%Z); (330, 374, 2, 1%Z); (376, 376, 1, (-121)%Z);
    (377, 381, 2, 1%Z); (385, 385, 1, 210%Z); (386, 388, 2, 1%Z); (390, 390, 1, 206%Z);
    (391, 391, 1, 1%Z); (393, 394, 1, 205%Z); (395, 395, 1, 1%Z); (398, 398, 1, 79%Z);
    (399, 399, 1, 202%Z); (400, 400, 1, 203%Z); (401, 401, 1, 1%Z); (403, 403, 1, 205%Z);
    (404, 404, 1, 207%Z); (406, 406, 1, 211%Z); (407, 407, 1, 209%Z); (408, 408, 1, 1%Z);
    (412, 412, 1, 211%Z); (413, 413, 1, 213%Z); (415, 415, 1, 214%Z); (416, 420, 2, 1%Z);
    (422, 422, 1, 218%Z); (423, 423, 1, 1%Z); (425, 425, 1, 218%Z); (428, 428, 1, 1%Z);
    (430, 430, 1, 218%Z); (431, 431, 1, 1%Z); (433, 434, 1, 217%Z); (435, 437, 2, 1%Z);
    (439, 439, 1, 219%Z); (440, 440, 1, 1%Z); (444, 444, 1, 1%Z); (452, 452, 1, 2%Z);
    (453, 453, 1, 1%Z); (455, 455, 1, 2%Z); (456, 456, 1, 1%Z); (458, 458, 1, 2%Z);
    (459, 475, 2, 1%Z); (478, 494, 2, 1%Z); (497, 497, 1, 2%Z); (498, 500, 2, 1%Z);
    (502, 502, 1, (-97)%Z); (503, 503, 1, (-56)%Z); (504, 542, 2, 1%Z); (544, 544, 1, (-130)%Z);
    (546, 562, 2, 1%Z); (570, 570, 1, 10795%Z); (571, 571, 1, 1%Z); (573, 573, 1, (-163)%Z);
    (574, 574, 1, 10792%Z); (577, 577, 1, 1%Z); (579, 579, 1, (-195)%Z); (580, 580, 1, 69%Z);
    (581, 581, 1, 71%Z); (582, 590, 2, 1%Z); (880, 882, 2, 1%Z); (886, 886, 1, 1%Z);
    (895, 895, 1, 116%Z); (902, 902, 1, 38%Z); (904, 906, 1, 37%Z); (908, 908, 1, 64%Z);
    (910, 911, 1, 63%Z); (913, 929, 1, 32%Z); (931, 939, 1, 32%Z); (975, 975, 1, 8%Z);
    (984, 1006, 2, 1%Z); (1012, 1012, 1, (-60)%Z); (1015, 1015, 1, 1%Z); (1017, 1017, 1, (-7)%Z);
    (1018, 1018, 1, 1%Z); (1021, 1023, 1, (-130)%Z); (1024, 1039, 1, 80%Z); (1040, 1071, 1, 32%Z);
    (1120, 1152, 2, 1%Z); (1162, 1214, 2, 1%Z); (1216, 1216, 1, 15%Z); (1217, 1229, 2, 1%Z);
    (1232, 1326, 2, 1%Z); (1329, 1366, 1, 48%Z); (4256, 4293, 1, 7264%Z); (4295, 4295, 1, 7264%Z);
    (4301, 4301, 1, 7264%Z); (5024, 5103, 1, 38864%Z); (5104, 5109, 1, 8%Z); (7312, 7354, 1, (-3008)%Z);
    (7357, 7359, 1, (-3008)%Z); (7680, 7828, 2, 1%Z); (7838, 7838, 1, (-7615)%Z); (7840, 7934, 2, 1%Z);
    (7944, 7951, 1, (-8)%Z); (7960, 7965, 1, (-8)%Z); (7976, 7983, 1, (-8)%Z); (7992, 7999, 1, (-8)%Z);
    (8008, 8013, 1, (-8)%Z); (8025, 8031, 2, (-8)%Z); (8040, 8047, 1, (-8)%Z); (8072, 8079, 1, (-8)%Z);
    (8088, 8095, 1, (-8)%Z); (8104, 8111, 1, (-8)%Z); (8120, 8121, 1, (-8)%Z); (8122, 8123, 1, (-74)%Z);
    (8124, 8124, 1, (-9)%Z); (8136, 8139, 1, (-86)%Z); (8140, 8140, 1, (-9)%Z); (8152, 8153, 1, (-8)%Z);
    (8154, 8155, 1, (-100)%Z); (8168, 8169, 1, (-8)%Z); (8170, 8171, 1, (-112)%Z); (8172, 8172, 1, (-7)%Z);
    (8184, 8185, 1, (-128)%Z); (8186, 8187, 1, (-126)%Z); (8188, 8188, 1, (-9)%Z); (8486, 8486, 1, (-7517)%Z);
    (8490, 8490, 1, (-8383)%Z); (8491, 8491, 1, (-8262)%Z); (8498, 8498, 1, 28%Z); (8544, 8559, 1, 16%Z);
    (8579, 8579, 1, 1%Z); (9398, 9423, 1, 26%Z); (11264, 11311, 1, 48%Z); (11360, 11360, 1, 1%Z);
    (11362, 11362, 1, (-10743)%Z); (11363, 11363, 1, (-3814)%Z); (11364, 11364, 1, (-10727)%Z); (11367, 11371, 2, 1%Z);
    (11373, 11373, 1, (-10780)%Z); (11374, 11374, 1, (-10749)%Z); (11375, 11375, 1, (-10783)%Z); (11376, 11376, 1, (-10782)%Z);
    (11378, 11378, 1, 1%Z); (11381, 11381, 1, 1%Z); (11390, 11391, 1, (-10815)%Z); (11392, 11490, 2, 1%Z);
    (11499, 11501, 2, 1%Z); (11506, 11506, 1, 1%Z); (42560, 42604, 2, 1%Z); (42624, 42650, 2, 1%Z);
    (42786, 42798, 2, 1%Z); (42802, 42862, 2, 1%Z); (42873, 42875, 2, 1%Z); (42877, 42877, 1, (-35332)%Z);
    (42878, 42886, 2, 1%Z); (42891, 42891, 1, 1%Z); (42893, 42893, 1, (-42280)%Z); (42896, 42898, 2, 1%Z);
    (42902, 42920, 2, 1%Z); (42922, 42922, 1, (-42308)%Z); (42923, 42923, 1, (-42319)%Z); (42924, 42924, 1, (-42315)%Z);
    (42925, 42925, 1, (-42305)%Z); (42926, 42926, 1, (-42308)%Z); (42928, 42928, 1, (-42258)%Z); (42929, 42929, 1, (-42282)%Z);
    (42930, 42930, 1, (-42261)%Z); (42931, 42931, 1, 928%Z); (42932, 42946, 2, 1%Z); (42948, 42948, 1, (-48)%Z);
    (42949, 42949, 1, (-42307)%Z); (42950, 42950, 1, (-35384)%Z); (42951, 42953, 2, 1%Z); (42960, 42960, 1, 1%Z);
    (42966, 42968, 2, 1%Z); (42997, 42997, 1, 1%Z); (65313, 65338, 1, 32%Z); (66560, 66599, 1, 40%Z);
    (66736, 66771, 1, 40%Z); (66928, 66938, 1, 39%Z); (66940, 66954, 1, 39%Z); (66956, 66962, 1, 39%Z);
    (66964, 66965, 1, 39%Z); (68736, 68786, 1, 64%Z); (71840, 71871, 1, 32%Z); (93760, 93791, 1, 32%Z);
    (125184, 125217, 1, 34%Z)
  ]%N.

(** [chr(cp).lower()] *)
Definition lower_cp (cp : N) : list N :=
  if (cp =? 304)%N then [105; 775]%N
  else match List.find (fun '(f, l, s, _) =>
                          (f <=? cp)%N && (cp <=? l)%N && ((cp - f) mod s =? 0)%N) lower_runs with
       | Some (_, _, _, d) => [Z.to_N (Z.of_N cp + d)]
       | None => [cp]
       end.

(** [str.lower] on a UTF-8 text *)
Definition lower (l : list ascii) : list ascii :=
  match utf8_decode l with
  | Some cps => utf8_encode (flat_map lower_cp cps)
  | None => l
  end.

(** the decimal digits (category Nd) come in blocks of ten, [0] to
    [9], starting at these code points above ASCII *)
Definition nd_starts : list N :=
  [
    1632; 1776; 1984; 2406; 2534; 2662; 2790; 2918; 3046; 3174;
    3302; 3430; 3558; 3664; 3792; 3872; 4160; 4240; 6112; 6160;
    6470; 6608; 6784; 6800; 6992; 7088; 7232; 7248; 42528; 43216;
    43264; 43472; 43504; 43600; 44016; 65296; 66720; 68912; 69734; 69872;
    69942; 70096; 70384; 70736; 70864; 71248; 71360; 71472; 71904; 72016;
    72784; 73040; 73120; 92768; 92864; 93008; 120782; 120792; 120802; 120812;
    120822; 123200; 123632; 125264; 130032
  ]%N.

(** [Py_UNICODE_TODECIMAL] above ASCII *)
Definition decimal_value (cp : N) : option N :=
  match List.find (fun s => (s <=? cp)%N && (cp <? s + 10)%N) nd_starts with
  | Some s => Some (cp - s)%N
  | None => None
  end.

(** the code points above ASCII with [str.isspace()] *)
Definition space_cps : list N :=
  [
    133; 160; 5760; 8192; 8193; 8194; 8195; 8196; 8197; 8198;
    8199; 8200; 8201; 8202; 8232; 8233; 8239; 8287; 12288
  ]%N.

End PyStr.

(* ------------------------------------------------------------------ *)
(** ** Python's [float(str)] *)

Module PyFloat.
Import PyStr.

(** The value of a successful [float(s)]: a finite decimal
    [(-1)^neg * m * 10^e] before rounding, an infinity, or a NaN. *)
Inductive pyfloat : Type :=
| PFin (neg : bool) (m : N) (e : Z)
| PInf (neg : bool)
| PNaN.

Definition is_digit (c : ascii) : bool :=
  let n := nat_of_ascii c in (48 <=? n)%nat && (n <=? 57)%nat.

Definition digit_val (c : ascii) : N := N.of_nat (nat_of_ascii c - 48).

(** ASCII [str.lower]: only A..Z change. *)
Definition lower_char (c : ascii) : ascii :=
  let n := nat_of_ascii c in
  if (65 <=? n)%nat && (n <=? 90)%nat then ascii_of_nat (n + 32) else c.

(** [digitpart] of the Python float grammar: digits, with single
    underscores allowed between two digits.  Returns the accumulated
    value, the number of digits read and the rest of the input. *)
Fixpoint digits (acc : N) (cnt : nat) (l : list ascii) : N * nat * list ascii :=
  match l with
  | [] => (acc, cnt, [])
  | c :: l' =>
      if is_digit c then digits (acc * 10 + digit_val c)%N (S cnt) l'
      else if Ascii.eqb c "_" then
        match l' with
        | d :: l'' =>
            if is_digit d && negb (cnt =? 0)%nat
            then digits (acc * 10 + digit_val d)%N (S cnt) l''
            else (acc, cnt, l)
        | [] => (acc, cnt, l)
        end
      else (acc, cnt, l)
  end.

(** exponent: [("e"|"E") [sign] digitpart], which must end the input *)
Definition parse_exponent (l : list ascii) : option Z :=
  match l with
  | [] => Some 0%Z
  | c :: r =>
      if Ascii.eqb (lower_char c) "e" then
        let '(neg, r') :=
          match r with
          | s :: r' => if Ascii.eqb s "-" then (true, r')
                       else if Ascii.eqb s "+" then (false, r') else (false, r)
          | [] => (false, r)
          end in
        let '(v, n, rest) := digits 0 0 r' in
        match rest with
        | [] => if (n =? 0)%nat then None
                else Some (if neg then (- Z.of_N v)%Z else Z.of_N v)
        | _ => None
        end
      else None
  end.

(** [digitpart ["." [digitpart]] [exponent] | "." digitpart [exponent]] *)
Definition parse_decimal (l : list ascii) : option (N * Z) :=
  let '(ip, ni, r1) := digits 0 0 l in
  let '(mant, nf, r2) :=
    match r1 with
    | c :: r => if Ascii.eqb c "." then digits ip 0 r else (ip, 0%nat, r1)
    | [] => (ip, 0%nat, r1)
    end in
  if ((ni + nf) =? 0)%nat then None
  else match parse_exponent r2 with
       | Some e => Some (mant, (e - Z.of_nat nf)%Z)
       | None => None
       end.

Definition list_of (s : string) : list ascii := list_ascii_of_string s.

Definition parse_unsigned (neg : bool) (l : list ascii) : option pyfloat :=
  let low := map lower_char l in
  if bool_decide (low = list_of "inf") || bool_decide (low = list_of "infinity")
  then Some (PInf neg)
  else if bool_decide (low = list_of "nan") then Some PNaN
  else match parse_decimal l with
       | Some (m, e) => Some (PFin neg m e)
       | None => None
       end.

(** the ASCII literal after the transform and the strip below: an
    optional sign, then the unsigned part *)
Definition parse_float (l : list ascii) : option pyfloat :=
  match l with
  | c :: r =>
      if Ascii.eqb c "-" then parse_unsigned true r
      else if Ascii.eqb c "+" then parse_unsigned false r
      else parse_unsigned false l
  | [] => None
  end.

(** [_PyUnicode_TransformDecimalAndSpaceToASCII] on one code point:
    below 127 it is kept, a space becomes " " and a decimal digit its
    ASCII digit; anything else becomes the '?' that ends the text and
    that no literal accepts, here [None]. *)
Definition to_ascii_cp (cp : N) : option ascii :=
  if (cp <? 127)%N then Some (ascii_of_N cp)
  else if existsb (N.eqb cp) space_cps then Some " "%char
  else match decimal_value cp with
       | Some d => Some (ascii_of_N (48 + d))
       | None => None
       end.

(** [Py_ISSPACE]: ASCII tab, line feed, vertical tab, form feed,
    carriage return and space *)
Definition py_isspace (c : ascii) : bool :=
  let n := nat_of_ascii c in ((9 <=? n) && (n <=? 13))%nat || (n =? 32)%nat.

Fixpoint lstrip_space (l : list ascii) : list ascii :=
  match l with
  | c :: r => if py_isspace c then lstrip_space r else l
  | [] => []
  end.

Definition strip_space (l : list ascii) : list ascii :=
  rev (lstrip_space (rev (lstrip_space l))).

(** [float(s)] on a [str] (PyFloat_FromString): the transform to
    ASCII, the strip of [Py_ISSPACE] characters at both ends, then the
    literal; [None] is the [ValueError] of an invalid literal. *)
Definition py_float (l : list ascii) : option pyfloat :=
  match utf8_decode l with
  | Some cps =>
      match mapM to_ascii_cp cps with
      | Some s => parse_float (strip_space s)
      | None => None
      end
  | None => None
  end.

(** [float(s) > 0] after IEEE-754 rounding to nearest even: a positive
    decimal is a positive double unless it is at most 2^-1075, which
    rounds to 0.0. *)
Definition gt0 (f : pyfloat) : bool :=
  match f with
  | PInf neg => negb neg
  | PNaN => false
  | PFin neg m e =>
      negb neg &&
      (if (0 <=? e)%Z then (0 <? m)%N
       else (Z.pow 10 (- e) <? Z.of_N m * Z.pow 2 1075)%Z)
  end.

End PyFloat.

(* ------------------------------------------------------------------ *)
(** ** [truthy] (BKK_Hospital_Distance_CSMBS.py, lines 86-97) *)

Module Truthy.
Import PyFloat.

(** Python's [str.isspace] characters, as UTF-8 byte sequences. *)
Definition ws_seqs : list (list ascii) :=
  map (map ascii_of_nat)
    ([[9]; [10]; [11]; [12]; [13]; [28]; [29]; [30]; [31]; [32];
      [194; 133]; [194; 160]; [225; 154; 128];
      [226; 128; 168]; [226; 128; 169]; [226; 128; 175];
      [226; 129; 159]; [227; 128; 128]]
     ++ map (fun k => [226; 128; 128 + k]) (seq 0 11))%nat.

(** one leading whitespace character, if any *)
Fixpoint drop_prefix (p l : list ascii) : option (list ascii) :=
  match p, l with
  | [], _ => Some l
  | a :: p', b :: l' => if Ascii.eqb a b then drop_prefix p' l' else None
  | _ :: _, [] => None
  end.

Fixpoint first_some {A B} (f : A -> option B) (xs : list A) : option B :=
  match xs with
  | [] => None
  | x :: xs' => match f x with Some y => Some y | None => first_some f xs' end
  end.

Fixpoint lstrip_fuel (fuel : nat) (l : list ascii) : list ascii :=
  match fuel with
  | O => l
  | S fuel' =>
      match first_some (fun p => drop_prefix p l) ws_seqs with
      | Some l' => lstrip_fuel fuel' l'
      | None => l
      end
  end.

Definition lstrip (l : list ascii) : list ascii := lstrip_fuel (length l) l.

(** trailing whitespace: strip the reversed sequences from the reversed text *)
Definition rstrip (l : list ascii) : list ascii :=
  let rws := map (@rev ascii) ws_seqs in
  let fix go (fuel : nat) (r : list ascii) : list ascii :=
    match fuel with
    | O => r
    | S fuel' =>
        match first_some (fun p => drop_prefix p r) rws with
        | Some r' => go fuel' r'
        | None => r
        end
    end in
  rev (go (length l) (rev l)).

Definition strip (l : list ascii) : list ascii := rstrip (lstrip l).

(** [str(val).strip().lower()] *)
Definition norm (raw : string) : list ascii := PyStr.lower (strip (list_of raw)).

(** [('1','y','yes','true','รับ','ใช่','t','on')] *)
Definition accepted : list string :=
  ["1"; "y"; "yes"; "true"; "รับ"; "ใช่"; "t"; "on"].

(** A pandas cell: [None] when [pd.isna(val)], otherwise [Some (str val)]. *)
Definition truthy (val : option string) : bool :=
  match val with
  | None => false
  | Some raw =>
      let s := norm raw in
      if existsb (fun w => bool_decide (s = list_of w)) accepted then true
      else match py_float s with
           | Some f => gt0 f
           | None => false
           end
  end.

End Truthy.

(* ------------------------------------------------------------------ *)
(** ** Nearest hospital per community
    (BKK_Hospital_Default.py 118-133, BKK_Hospital_Distance_CSMBS.py 188-203) *)

Module Assign.

(** A pandas frame iterated by [iterrows()]: (index label, row) pairs.
    [read_csv] gives the labels 0 .. n-1. *)
Definition indexed {Row} (rows : list Row) : list (nat * Row) :=
  zip (seq 0 (length rows)) rows.

(** Python's [d < min_dist] where [min_dist] starts at [float('inf')]:
    [None] stands for the infinity. *)
Definition Qltb (a b : Q) : bool := negb (Qle_bool b a).

Definition lt_inf (d : Q) (m : option Q) : bool :=
  match m with
  | None => true
  | Some m' => Qltb d m'
  end.

(** An entry [(c_idx, nearest_idx, dist)] of [comm_assigned]. *)
Definition entry : Type := (nat * option nat * option Q)%type.

Section Engine.
Context {Row Pt : Type}.
(** [float(row[LAT_COL]); float(row[LON_COL])]; [None] when one of
    the conversions raises. *)
Variable coords : Row -> option Pt.
(** [geodesic(p, q).meters]; [None] when geopy raises on the points. *)
Variable geodesic : Pt -> Pt -> option Q.

(** the inner [for h_idx, hosp in hospitals.iterrows()] loop, with the
    state [(min_dist, nearest_idx)]; [None] is an exception *)
Fixpoint scan (p : Pt) (hs : list (nat * Row)) (min_dist : option Q)
    (nearest_idx : option nat) : option (option Q * option nat) :=
  match hs with
  | [] => Some (min_dist, nearest_idx)
  | (h_idx, hosp) :: hs' =>
      match coords hosp with
      | None => scan p hs' min_dist nearest_idx
      | Some q =>
          match geodesic p q with
          | None => None
          | Some d =>
              if lt_inf d min_dist then scan p hs' (Some d) (Some h_idx)
              else scan p hs' min_dist nearest_idx
          end
      end
  end.

(** one iteration of the outer loop *)
Definition assign_one (hs : list (nat * Row)) (c_idx : nat) (comm : Row)
    : option entry :=
  match coords comm with
  | None => Some (c_idx, None, None)
  | Some p =>
      match scan p hs None None with
      | Some (min_dist, nearest_idx) => Some (c_idx, nearest_idx, min_dist)
      | None => None
      end
  end.

(** [comm_assigned.append(...)] over [communities.iterrows()] *)
Fixpoint assign_loop (hs : list (nat * Row)) (cs : list (nat * Row))
    (acc : list entry) : option (list entry) :=
  match cs with
  | [] => Some acc
  | (c_idx, comm) :: cs' =>
      match assign_one hs c_idx comm with
      | Some r => assign_loop hs cs' (acc ++ [r])
      | None => None
      end
  end.

Definition comm_assigned (communities : list Row) (hs : list (nat * Row))
    : option (list entry) :=
  assign_loop hs (indexed communities) [].

(** BKK_Hospital_Default.py: every hospital is scanned. *)
Definition comm_assigned_default (communities hospitals : list Row) :=
  comm_assigned communities (indexed hospitals).

(** BKK_Hospital_Distance_CSMBS.py: only the rows with
    [csmbs_accept == True], which keep their original labels. *)
Definition csmbs_hospitals (csmbs_accept : Row -> bool) (hospitals : list Row)
    : list (nat * Row) :=
  filter (fun ih => csmbs_accept ih.2 = true) (indexed hospitals).

Definition comm_assigned_csmbs (csmbs_accept : Row -> bool)
    (communities hospitals : list Row) :=
  comm_assigned communities (csmbs_hospitals csmbs_accept hospitals).

(** [P] holds of the distance from [p] of every hospital of [l] whose
    coordinates parse *)
Definition dists_ok (p : Pt) (l : list (nat * Row)) (P : Q -> Prop) : Prop :=
  forall j h q d', In (j, h) l -> coords h = Some q -> geodesic p q = Some d' -> P d'.

End Engine.

End Assign.

(* ------------------------------------------------------------------ *)
(** ** Hospital weights (BKK_Hospital_Default.py 135-143,
       BKK_Hospital_Distance_CSMBS.py 205-212) *)

Module Weights.
Import Assign.

(** the [weight] column, indexed by the frame's labels:
    [hospitals['weight'] = 0] *)
Definition weight_init (labels : list nat) : gmap nat nat :=
  list_to_map (map (fun l => (l, 0%nat)) labels).

(** [hospitals.at[h_idx, 'weight'] += 1]; an unknown label raises
    [KeyError], which the [except: pass] swallows *)
Definition bump (w : gmap nat nat) (h_idx : nat) : gmap nat nat :=
  match w !! h_idx with
  | Some x => <[h_idx := S x]> w
  | None => w
  end.

Definition add_entry (w : gmap nat nat) (r : entry) : gmap nat nat :=
  match r with
  | (_, Some h_idx, _) => bump w h_idx
  | (_, None, _) => w
  end.

Definition hosp_weights (labels : list nat) (res : list entry) : gmap nat nat :=
  foldl add_entry (weight_init labels) res.

(** [weight[f]] read back from the column (0 for a label not in it) *)
Definition weight_of (w : gmap nat nat) (l : nat) : nat := default 0%nat (w !! l).

(** [sum(weight[f] for all f)] *)
Definition total_weight (labels : list nat) (w : gmap nat nat) : nat :=
  sum_list (map (weight_of w) labels).

(** every label of the frame has a [weight] cell *)
Definition covers (labels : list nat) (w : gmap nat nat) : Prop :=
  forall l, In l labels -> is_Some (w !! l).

(** the communities with a non-none assignment *)
Definition assigned_count (res : list entry) : nat :=
  length (filter (fun r : entry => is_Some r.1.2) res).

End Weights.

(* ------------------------------------------------------------------ *)
(** ** District metrics (BKK_Hospital_Default.py 145-224,
       BKK_Hospital_Congestion_ByDistrict.py 133-186) *)

Module Districts.
Import Assign.

Record Metrics : Type := mkMetrics {
  num_hospitals : nat;
  num_communities : nat;
  sum_hospital_weights : nat
}.

Definition zero_metrics : Metrics := mkMetrics 0 0 0.

Section Aggregate.
Context {Row Pt Poly : Type}.
Variable coords : Row -> option Pt.
(** [poly.contains(pt)] (shapely: the point lies in the interior) *)
Variable contains : Poly -> Pt -> bool.
(** [p.contains(centroid) or p.intersects(centroid)] where [centroid]
    is the centroid of the second polygon *)
Variable centroid_hit : Poly -> Poly -> bool.

(** A district feature: the name read from [district_name_field] and
    the shapely shape ([None] if the geometry is missing or invalid). *)
Record feature : Type := mkFeature {
  f_name : option string;
  f_shape : option Poly
}.

(** [district_metrics[name] = {...zeros...}] for every feature name *)
Definition init_metrics (feats : list feature) : gmap (option string) Metrics :=
  foldl (fun m f => <[f_name f := zero_metrics]> m) ∅ feats.

(** [for i, poly in enumerate(district_shapes): ... if poly.contains(pt):
    name = district_names[i]; ...; break] *)
Fixpoint first_match (feats : list feature) (pt : Pt) : option (option string) :=
  match feats with
  | [] => None
  | f :: fs =>
      match f_shape f with
      | Some poly => if contains poly pt then Some (f_name f) else first_match fs pt
      | None => first_match fs pt
      end
  end.

(** [m = district_metrics.setdefault(name, zeros)] followed by updates *)
Definition update (name : option string) (g : Metrics -> Metrics)
    (m : gmap (option string) Metrics) : gmap (option string) Metrics :=
  <[name := g (default zero_metrics (m !! name))]> m.

(** [int(hosp.get('weight', 0) or 0)]: [None] when the frame has no
    [weight] column *)
Definition weight_get (wcol : option (gmap nat nat)) (h_idx : nat) : nat :=
  match wcol with
  | Some w => default 0%nat (w !! h_idx)
  | None => 0%nat
  end.

Definition add_hospital (feats : list feature) (wcol : option (gmap nat nat))
    (m : gmap (option string) Metrics) (ih : nat * Row) :=
  match coords ih.2 with
  | None => m
  | Some pt =>
      match first_match feats pt with
      | None => m
      | Some name =>
          update name (fun x => mkMetrics (S (num_hospitals x)) (num_communities x)
                                  (sum_hospital_weights x + weight_get wcol ih.1)) m
      end
  end.

Definition add_community (feats : list feature)
    (m : gmap (option string) Metrics) (ic : nat * Row) :=
  match coords ic.2 with
  | None => m
  | Some pt =>
      match first_match feats pt with
      | None => m
      | Some name =>
          update name (fun x => mkMetrics (num_hospitals x) (S (num_communities x))
                                  (sum_hospital_weights x)) m
      end
  end.

Definition district_metrics_run (feats : list feature) (wcol : option (gmap nat nat))
    (hospitals communities : list Row) : gmap (option string) Metrics :=
  foldl (add_community feats)
    (foldl (add_hospital feats wcol) (init_metrics feats) (indexed hospitals))
    (indexed communities).

(** the row's point parses and its first containing polygon is named [n] *)
Definition matched_to (feats : list feature) (n : option string) (r : Row) : bool :=
  match coords r with
  | Some pt => bool_decide (first_match feats pt = Some n)
  | None => false
  end.

(** the rows of [l] counted in the bucket named [n] *)
Definition matched_rows (feats : list feature) (n : option string)
    (l : list (nat * Row)) : list (nat * Row) :=
  filter (fun ir : nat * Row => matched_to feats n ir.2 = true) l.

(** the centroid fallback of [out_features] for a name without metrics *)
Fixpoint centroid_search (m : gmap (option string) Metrics) (g : Poly)
    (feats : list feature) : Metrics :=
  match feats with
  | [] => zero_metrics
  | f :: fs =>
      match f_shape f with
      | Some p =>
          if centroid_hit p g then
            match m !! f_name f with
            | Some x => x
            | None => centroid_search m g fs
            end
          else centroid_search m g fs
      | None => centroid_search m g fs
      end
  end.

Definition injected (feats : list feature) (m : gmap (option string) Metrics)
    (f : feature) : Metrics :=
  match m !! f_name f with
  | Some x => x
  | None =>
      match f_shape f with
      | Some g => centroid_search m g feats
      | None => zero_metrics
      end
  end.

(** the counters written into each output feature's properties *)
Definition out_features (feats : list feature) (m : gmap (option string) Metrics)
    : list Metrics :=
  map (injected feats m) feats.

End Aggregate.

(** [global_max = max((... sum_hospital_weights ...), default=1)] *)
Definition global_max (sums : list nat) : nat :=
  match sums with
  | [] => 1%nat
  | _ => foldr Nat.max 0%nat sums
  end.

(** [choropleth_norm = float(s) / float(global_max) if global_max > 0 else 0.0] *)
Definition choropleth_norm (outs : list Metrics) : list Q :=
  let sums := map sum_hospital_weights outs in
  let gm := global_max sums in
  map (fun s => if (0 <? gm)%nat then (inject_Z (Z.of_nat s) / inject_Z (Z.of_nat gm))%Q
                else 0%Q) sums.

End Districts.

(* ------------------------------------------------------------------ *)
(** ** Loading the tables (BKK_Hospital_Default.py 59-88) *)

Module Loader.
Import PyFloat.

(** A value of a numeric pandas column: NaN (a missing cell too), a
    finite double, given by its value, or an infinity. *)
Inductive num : Type :=
| NaN
| Fin (q : Q)
| Inf (neg : bool).

(** A cell of a frame after [pd.read_csv]: a number, or text (a column
    holding any non-numeric text keeps its cells as text). *)
Inductive cell : Type :=
| Num (x : num)
| Text (s : string).

(** [float(cell)] succeeds: a number already is a float (NaN and the
    infinities included); text goes through [float(str)]. *)
Definition float_ok (c : cell) : bool :=
  match c with
  | Num _ => true
  | Text s => match py_float (list_of s) with Some _ => true | None => false end
  end.

Section Coerce.
(** pandas' parsing of a text cell by [pd.to_numeric]: the number it
    stores, or [None] when the text is not numeric ([errors='coerce']
    makes it NaN) *)
Variable to_numeric_text : string -> option num.
(** what [astype(int)] gives for a finite double whose truncation lies
    outside the int64 range (a conversion C leaves undefined; x86-64
    gives -2^63) *)
Variable int64_overflow : Q -> Z.

(** [astype(int)] on a finite double: truncation toward zero *)
Definition astype_int (q : Q) : Z :=
  let t := Z.quot (Qnum q) (Zpos (Qden q)) in
  if (- 2 ^ 63 <=? t)%Z && (t <? 2 ^ 63)%Z then t else int64_overflow q.

(** [pd.to_numeric(.., errors='coerce').fillna(0).astype(int)] on one
    cell; [None] is the error of [astype(int)] on an infinity *)
Definition coerce_int (c : cell) : option Z :=
  let conv (x : num) :=
    match x with
    | NaN => Some 0%Z
    | Fin q => Some (astype_int q)
    | Inf _ => None
    end in
  match c with
  | Num x => conv x
  | Text s => conv (default NaN (to_numeric_text s))
  end.

Record raw_row : Type := mkRaw {
  rr_lat : cell;
  rr_lon : cell;
  rr_count : cell
}.

(** a loaded record: coordinates as read, the count column coerced *)
Record record : Type := mkRecord {
  r_lat : cell;
  r_lon : cell;
  r_count : Z
}.

(** How a missing count column is handled: the hospital columns go
    through [pd.to_numeric(hospitals.get(col, 0), ...).fillna(0)]
    whether or not the column exists, while the community population
    column is set to 0 when the table has none. *)
Inductive table : Type := Hospitals | Communities.

(** the count column coerced row by row; [None] when a cell stops
    [astype(int)], which raises for the whole column *)
Fixpoint coerce_rows (rows : list raw_row) : option (list record) :=
  match rows with
  | [] => Some []
  | r :: rs =>
      match coerce_int (rr_count r), coerce_rows rs with
      | Some n, Some xs => Some (mkRecord (rr_lat r) (rr_lon r) n :: xs)
      | _, _ => None
      end
  end.

(** Loading a table and one of its count columns
    (BKK_Hospital_Default.py, lines 59-88): the community table has one
    (the population), the hospital table two (the nearby population and
    the beds), each handled by the same line on the same rows. [None] is an exception that
    stops the script: the [KeyError] of a missing coordinate column, the
    [AttributeError] of a hospital table without the count column
    ([pd.to_numeric] of the scalar 0 has no [fillna]), or the error of
    [astype(int)] on an infinity. *)
Definition load_table (t : table) (has_coords has_col : bool) (rows : list raw_row)
    : option (list record) :=
  if negb has_coords then None
  else if has_col then coerce_rows rows
  else match t with
       | Hospitals => None
       | Communities => Some (map (fun r => mkRecord (rr_lat r) (rr_lon r) 0%Z) rows)
       end.

(** [float(row[LAT_COL]); float(row[LON_COL])] succeeds *)
Definition coords_parse (x : record) : bool :=
  float_ok (r_lat x) && float_ok (r_lon x).
End Coerce.

End Loader.

(* ------------------------------------------------------------------ *)
(** ** The two pipelines *)

Module Pipeline.
Import Assign Weights Districts.

Section Run.
Context {Row Pt Poly : Type}.
Variable coords : Row -> option Pt.
Variable geodesic : Pt -> Pt -> option Q.
Variable contains : Poly -> Pt -> bool.

(** BKK_Hospital_Default.py (and BKK_Hospital_Congestion_ByDistrict.py):
    assignment over all hospitals, [hospitals['weight']] on the same
    frame, then the district metrics reading that column. *)
Definition default_run (feats : list (@feature Poly)) (communities hospitals : list Row)
    : option (list entry * gmap nat nat * gmap (option string) Metrics) :=
  match comm_assigned_default coords geodesic communities hospitals with
  | Some res =>
      let w := hosp_weights (seq 0 (length hospitals)) res in
      Some (res, w, district_metrics_run coords contains feats (Some w) hospitals communities)
  | None => None
  end.

(** BKK_Hospital_Distance_CSMBS.py: assignment over the CSMBS copy,
    [csmbs_hospitals['weight']] on that copy, then the district metrics
    over [hospitals], whose [hosp.get('weight', 0)] reads the [weight]
    column of hospitals.csv itself: [hosp_wcol], [None] when the file
    has no such column (a column of non-negative integers otherwise). *)
Definition csmbs_run (csmbs_accept : Row -> bool) (hosp_wcol : option (gmap nat nat))
    (feats : list (@feature Poly)) (communities hospitals : list Row)
    : option (list entry * gmap nat nat * gmap (option string) Metrics) :=
  match comm_assigned_csmbs coords geodesic csmbs_accept communities hospitals with
  | Some res =>
      let w := hosp_weights (map fst (csmbs_hospitals csmbs_accept hospitals)) res in
      Some (res, w, district_metrics_run coords contains feats hosp_wcol hospitals communities)
  | None => None
  end.
End Run.

End Pipeline.

(* ------------------------------------------------------------------ *)
(** ** Concrete inputs for runs of the model *)

(* ------------------------------------------------------------------ *)
(** ** Column and field detection *)

Module Detect.

(** the candidates of [detect_name_field] *)
Definition name_candidates : list string :=
  ["amp_th"; "district"; "name"; "NAME"; "AMP_T"; "AMP_THA"; "DISTRICT"].

(** [for c in candidates: if c in keys: return c] *)
Fixpoint first_member (cands keys : list string) : option string :=
  match cands with
  | [] => None
  | c :: cs => if in_dec string_dec c keys then Some c else first_member cs keys
  end.

(** [detect_name_field(features)]: a feature is given by the keys of its
    [properties] object in order ([None] when the entry is missing or
    null, read as [{}] by [... or {}]) *)
Definition detect_name_field (features : list (option (list string))) : option string :=
  match features with
  | [] => None
  | f :: _ =>
      let props := default [] f in
      match first_member name_candidates props with
      | Some c => Some c
      | None => head props
      end
  end.

(** the inline detection of Ratchathewi_Hospital_Rights_CSMBS.py: the
    same candidates on the first feature, then ['amp_th'] *)
Definition detect_name_field_ratchathewi (features : list (option (list string))) : string :=
  match match features with
        | [] => None
        | f :: _ => first_member name_candidates (default [] f)
        end with
  | Some c => c
  | None => "amp_th"
  end.

Section Rights.
(** [str.lower] *)
Variable lower : string -> string.

(** [lc = {col.lower(): col for col in cols}]: a later column overwrites
    an earlier one with the same lower-cased name *)
Definition lower_index (cols : list string) : gmap string string :=
  foldl (fun m col => <[lower col := col]> m) ∅ cols.

(** [for c in candidates: if c.lower() in lc: return lc[c.lower()]] *)
Fixpoint first_lower (lc : gmap string string) (cands : list string) : option string :=
  match cands with
  | [] => None
  | c :: cs =>
      match lc !! lower c with
      | Some col => Some col
      | None => first_lower lc cs
      end
  end.

(** [detect_rights_column(cols, candidates)] *)
Definition detect_rights_column (cols candidates : list string) : option string :=
  match first_member candidates cols with
  | Some c => Some c
  | None => first_lower (lower_index cols) candidates
  end.

Definition csmbs_candidates : list string :=
  ["สิทธิข้าราชการ"; "CSMBS"; "ข้าราชการ"; "civil_servant"; "civil_service";
   "รับสิทธิข้าราชการ"; "รับ_csmbs"; "รับ_csm"].

(** [detect_csmbs_column(df_cols)] of BKK_Hospital_Distance_CSMBS.py: the
    same two passes over its fixed candidates *)
Definition detect_csmbs_column (cols : list string) : option string :=
  detect_rights_column cols csmbs_candidates.
End Rights.

End Detect.

(* ------------------------------------------------------------------ *)
(** ** [html.escape] *)

Module Html.
Import PyFloat.

(** [s.replace(c, r)] for a one-character [c] *)
Definition replace1 (c : ascii) (r : list ascii) (l : list ascii) : list ascii :=
  flat_map (fun x => if ascii_dec x c then r else [x]) l.

(** the double quote character *)
Definition quote_char : ascii := ascii_of_nat 34.

(** [html.escape(s, quote=True)] on the UTF-8 bytes of [s] (the five
    characters it rewrites are ASCII, and no byte of a multi-byte UTF-8
    sequence is ASCII) *)
Definition escape (s : list ascii) : list ascii :=
  replace1 "'"%char (list_of "&#x27;")
    (replace1 quote_char (list_of "&quot;")
      (replace1 ">"%char (list_of "&gt;")
        (replace1 "<"%char (list_of "&lt;")
          (replace1 "&"%char (list_of "&amp;") s)))).

End Html.

(* ------------------------------------------------------------------ *)
(** ** District write-back variants *)

Module Writeback.
Import Districts.

(** [district_metrics.get(name, zeros)]: the write-back of
    BKK_Hospital_Distance_CSMBS.py, BKK_Hospital_Congestion_ByDistrict.py
    and Ratchathewi_Hospital_Rights_CSMBS.py (no centroid fallback) *)
Definition metrics_get {Poly} (feats : list (@feature Poly))
    (m : gmap (option string) Metrics) : list Metrics :=
  map (fun f => default zero_metrics (m !! f_name f)) feats.

(** BKK_Hospital_Congestion_ByDistrict.py: [max_sum_weights] over the
    values of [district_metrics] (default 1), then
    [metrics['sum_hospital_weights'] / max_sum_weights] per feature *)
Definition congestion_norm {Poly} (feats : list (@feature Poly))
    (m : gmap (option string) Metrics) : list Q :=
  let mx := global_max (map (fun kv : option string * Metrics => sum_hospital_weights kv.2)
                            (map_to_list m)) in
  map (fun f =>
         let s := sum_hospital_weights (default zero_metrics (m !! f_name f)) in
         if (0 <? mx)%nat then (inject_Z (Z.of_nat s) / inject_Z (Z.of_nat mx))%Q else 0%Q)
      feats.

End Writeback.

(* ------------------------------------------------------------------ *)
(** ** Map layers of BKK_Hospital_Default.py *)

Module Layers.
Import Assign.

Section Draw.
Context {Row Pt : Type}.
Variable coords : Row -> option Pt.

(** the connection loop: one [(community point, hospital point)] line per
    drawn [PolyLine]; [None] is the KeyError of [.loc] on a missing label *)
Fixpoint connections (communities hospitals : list Row) (res : list entry)
    : option (list (Pt * Pt)) :=
  match res with
  | [] => Some []
  | (ci, None, _) :: rs => connections communities hospitals rs
  | (ci, Some hi, _) :: rs =>
      match communities !! ci, hospitals !! hi with
      | Some comm, Some hosp =>
          match coords comm, coords hosp with
          | Some cp, Some hp => cons (cp, hp) <$> connections communities hospitals rs
          | _, _ => connections communities hospitals rs
          end
      | _, _ => None
      end
  end.

(** a community [CircleMarker]: its point, the hospital named in its popup
    ([None] for "N/A") and the distance shown ([None] for "N/A") *)
Record marker : Type := mkMarker {
  mk_point : Pt;
  mk_hospital : option nat;
  mk_dist : option Q
}.

(** the community marker loop *)
Fixpoint community_markers (communities hospitals : list Row) (res : list entry)
    : option (list marker) :=
  match res with
  | [] => Some []
  | (ci, h, d) :: rs =>
      match communities !! ci with
      | None => None
      | Some comm =>
          match coords comm with
          | None => community_markers communities hospitals rs
          | Some cp =>
              match h with
              | Some hi =>
                  match hospitals !! hi with
                  | Some _ => cons (mkMarker cp (Some hi) d) <$> community_markers communities hospitals rs
                  | None => None
                  end
              | None => cons (mkMarker cp None None) <$> community_markers communities hospitals rs
              end
          end
      end
  end.
End Draw.

End Layers.

Module Sample.
Import Assign Districts.

(** A row whose coordinate cells are already converted: [None] where
    [float(...)] raises; [s_csmbs] is the raw eligibility cell. *)
Record site : Type := mkSite {
  s_lat : option Q;
  s_lon : option Q;
  s_csmbs : option string
}.

Definition site_coords (s : site) : option (Q * Q) :=
  match s_lat s, s_lon s with
  | Some a, Some b => Some (a, b)
  | _, _ => None
  end.

(** stand-in distance for concrete runs: |dlat| + |dlon| *)
Definition grid_dist (p q : Q * Q) : option Q :=
  Some (Qabs (p.1 - q.1) + Qabs (p.2 - q.2))%Q.

(** an axis-parallel rectangle (min_lon, min_lat, max_lon, max_lat);
    shapely's [contains] on it holds for interior points only *)
Definition rect : Type := (Q * Q * Q * Q)%type.

Definition rect_contains (r : rect) (p : Q * Q) : bool :=
  let '(x0, y0, x1, y1) := r in
  Qltb x0 p.2 && Qltb p.2 x1 && Qltb y0 p.1 && Qltb p.1 y1.

Definition no_centroid_hit (_ _ : rect) : bool := false.

Definition csmbs_accept (s : site) : bool := Truthy.truthy (s_csmbs s).

(** the scenario of the spec: three communities, one eligible and one
    ineligible hospital *)
Definition communities3 : list site :=
  [mkSite (Some (1375 # 100)) (Some (10050 # 100)) None;
   mkSite (Some (1376 # 100)) (Some (10052 # 100)) None;
   mkSite (Some (1380 # 100)) (Some (10060 # 100)) None].

Definition hospitals2 : list site :=
  [mkSite (Some (13751 # 1000)) (Some (100501 # 1000)) (Some "yes");
   mkSite (Some (1390 # 100)) (Some (10090 # 100)) (Some "0")].

(** the same hospitals, none of them CSMBS-eligible *)
Definition hospitals_ineligible : list site :=
  [mkSite (Some (13751 # 1000)) (Some (100501 # 1000)) (Some "0");
   mkSite (Some (1390 # 100)) (Some (10090 # 100)) (Some "no")].

Definition pt (lat lon : Q) : site := mkSite (Some lat) (Some lon) None.

Definition feat (n : string) (r : rect) : @feature rect := mkFeature (Some n) (Some r).

(** two districts around the scenario: "A" holds the first hospital and
    the first two communities, "B" the rest *)
Definition bkk_feats : list (@feature rect) :=
  [feat "A" (1004 # 10, 137 # 10, 10055 # 100, 1378 # 100);
   feat "B" (10055 # 100, 1378 # 100, 101 # 1, 14 # 1)].

Definition sample_res : list entry :=
  default [] (comm_assigned site_coords grid_dist communities3 (indexed hospitals2)).

Definition bkk_out : list entry * gmap nat nat * gmap (option string) Metrics :=
  default ([], ∅, ∅)
    (Pipeline.default_run site_coords grid_dist rect_contains bkk_feats communities3 hospitals2).

Definition single_feats : list (@feature rect) := [feat "D" (0, 0, 20, 20)]%Q.

Definition one_hospital : list site := [mkSite (Some 5%Q) (Some 5%Q) (Some "yes")].

Definition one_community : list site := [pt 6 6].

(** adjacent districts sharing the edge at longitude 10 *)
Definition adjacent_feats : list (@feature rect) :=
  [feat "A" (0, 0, 10, 10); feat "B" (10, 0, 20, 10)]%Q.

Definition edge_community : list site := [pt 5 10].

(** two features named "A" *)
Definition dup_feats : list (@feature rect) :=
  [feat "A" (0, 0, 10, 10); feat "A" (10, 0, 20, 10); feat "B" (0, 10, 20, 20)]%Q.

(** [pd.to_numeric] on text, for the examples: Python's float grammar,
    the value kept exact *)
Definition to_numeric_sample (s : string) : option Loader.num :=
  match PyFloat.py_float (PyFloat.list_of s) with
  | Some (PyFloat.PFin neg m e) =>
      let z := if neg then (- Z.of_N m)%Z else Z.of_N m in
      Some (Loader.Fin (if (0 <=? e)%Z then inject_Z (z * 10 ^ e)%Z
                        else Qmake z (Z.to_pos (10 ^ (- e)))))
  | Some (PyFloat.PInf neg) => Some (Loader.Inf neg)
  | Some PyFloat.PNaN => Some Loader.NaN
  | None => None
  end.

(** [astype(int)] out of the int64 range on x86-64 *)
Definition x86_overflow (_ : Q) : Z := (- 2 ^ 63)%Z.

(** a population table with an unparseable latitude and a negative count,
    and a well-formed row with a textual count *)
Definition bad_rows : list Loader.raw_row :=
  [Loader.mkRaw (Loader.Text "abc") (Loader.Num (Loader.Fin 100)) (Loader.Num (Loader.Fin (-5)));
   Loader.mkRaw (Loader.Num (Loader.Fin (1375 # 100))) (Loader.Num (Loader.Fin (10050 # 100)))
     (Loader.Text " 12.9 ")].

(** a row whose count cell is the text "inf" *)
Definition inf_rows : list Loader.raw_row :=
  [Loader.mkRaw (Loader.Num (Loader.Fin 13)) (Loader.Num (Loader.Fin 100)) (Loader.Text "inf")].

(** the CSMBS pipeline on the scenario *)
Definition csmbs_res : list entry :=
  default [] (comm_assigned_csmbs site_coords grid_dist csmbs_accept communities3 hospitals2).

Definition csmbs_out : list entry * gmap nat nat * gmap (option string) Metrics :=
  default ([], ∅, ∅)
    (Pipeline.csmbs_run site_coords grid_dist rect_contains csmbs_accept None bkk_feats
       communities3 hospitals2).

End Sample.

(* ================================================================== *)
(** * Properties *)

Module AssignProofs.
Import Assign.

Lemma Qltb_true a b : Qltb a b = true <-> (a < b)%Q.
Proof.
  unfold Qltb. rewrite negb_true_iff. split; intro H.
  - apply Qnot_le_lt. intro H'. apply Qle_bool_iff in H'. congruence.
  - destruct (Qle_bool b a) eqn:E; [|reflexivity].
    apply Qle_bool_iff in E. exfalso. exact (Qlt_not_le _ _ H E).
Qed.

Lemma Qltb_false a b : Qltb a b = false <-> (b <= a)%Q.
Proof.
  unfold Qltb. rewrite negb_false_iff. apply Qle_bool_iff.
Qed.

Lemma lt_inf_trans a b m : Qltb a b = true -> lt_inf b m = true -> lt_inf a m = true.
Proof.
  destruct m as [m|]; simpl; [|auto].
  rewrite !Qltb_true. apply Qlt_trans.
Qed.

Lemma lt_inf_between a b m :
  lt_inf a m = true -> lt_inf b m = false -> (a < b)%Q.
Proof.
  destruct m as [m|]; simpl; [|discriminate].
  rewrite Qltb_true, Qltb_false. intros H1 H2. exact (Qlt_le_trans _ _ _ H1 H2).
Qed.

Section Scan.
Context {Row Pt : Type}.
Variable coords : Row -> option Pt.
Variable geodesic : Pt -> Pt -> option Q.
Variable p : Pt.

Lemma scan_geodesic_ok hs m n r :
  scan coords geodesic p hs m n = Some r ->
  forall j h q, In (j, h) hs -> coords h = Some q -> exists d, geodesic p q = Some d.
Proof.
  revert m n. induction hs as [|[j0 h0] hs IH]; intros m n Hs j h q Hin Hc;
    [destruct Hin|].
  simpl in Hs. destruct Hin as [Heq|Hin].
  - inversion Heq; subst. rewrite Hc in Hs.
    destruct (geodesic p q) as [d|]; [eauto|discriminate].
  - destruct (coords h0) as [q0|]; [|eauto].
    destruct (geodesic p q0) as [d0|]; [|discriminate].
    destruct (lt_inf d0 m); eauto.
Qed.

Ltac same_hosp :=
  match goal with
  | Heq : (_, _) = (_, _) |- _ => inversion Heq; subst; clear Heq
  end;
  repeat match goal with
  | H1 : coords ?h = Some _, H2 : coords ?h = Some _ |- _ =>
      rewrite H1 in H2; inversion H2; subst; clear H2
  | H1 : coords ?h = None, H2 : coords ?h = Some _ |- _ =>
      rewrite H1 in H2; discriminate
  | H1 : geodesic ?a ?b = Some _, H2 : geodesic ?a ?b = Some _ |- _ =>
      rewrite H1 in H2; inversion H2; subst; clear H2
  end.

(** The scan either keeps its state (no hospital beats [m]) or ends on
    the last hospital that improved the minimum: a minimum over [hs],
    strictly below every hospital scanned before it. *)
Lemma scan_sound hs m n m' n' :
  scan coords geodesic p hs m n = Some (m', n') ->
  (m' = m /\ n' = n /\ dists_ok coords geodesic p hs (fun d' => lt_inf d' m = false))
  \/ (exists pre i hosp q d post,
        hs = pre ++ (i, hosp) :: post /\ coords hosp = Some q /\
        geodesic p q = Some d /\ m' = Some d /\ n' = Some i /\
        lt_inf d m = true /\
        dists_ok coords geodesic p hs (fun d' => (d <= d')%Q) /\
        dists_ok coords geodesic p pre (fun d' => (d < d')%Q)).
Proof.
  revert m n. induction hs as [|[j h] hs IH]; intros m n Hs; simpl in Hs.
  - inversion Hs; subst. left. repeat split. intros ? ? ? ? [].
  - destruct (coords h) as [q0|] eqn:Hc.
    + destruct (geodesic p q0) as [d0|] eqn:Hg; [|discriminate].
      destruct (lt_inf d0 m) eqn:Hlt; apply IH in Hs;
        destruct Hs as [(-> & -> & Hall)
                       |(pre & i & hosp & q & d & post & -> & Hc1 & Hg1 & -> & -> & Hlt1 & Hle & Hpre)].
      * right. exists [], j, h, q0, d0, hs. repeat split; auto.
        -- intros j' h' q' d' [Heq|Hin] Hc' Hg'.
           ++ same_hosp. apply Qle_refl.
           ++ apply Qltb_false. exact (Hall _ _ _ _ Hin Hc' Hg').
        -- intros ? ? ? ? [].
      * right. exists ((j, h) :: pre), i, hosp, q, d, post. simpl in Hlt1.
        repeat split; auto.
        -- exact (lt_inf_trans _ _ _ Hlt1 Hlt).
        -- intros j' h' q' d' [Heq|Hin] Hc' Hg'.
           ++ same_hosp. apply Qlt_le_weak. apply Qltb_true. exact Hlt1.
           ++ exact (Hle _ _ _ _ Hin Hc' Hg').
        -- intros j' h' q' d' [Heq|Hin] Hc' Hg'.
           ++ same_hosp. apply Qltb_true. exact Hlt1.
           ++ exact (Hpre _ _ _ _ Hin Hc' Hg').
      * left. repeat split; auto.
        intros j' h' q' d' [Heq|Hin] Hc' Hg'.
        -- same_hosp. exact Hlt.
        -- exact (Hall _ _ _ _ Hin Hc' Hg').
      * right. exists ((j, h) :: pre), i, hosp, q, d, post.
        repeat split; auto.
        -- intros j' h' q' d' [Heq|Hin] Hc' Hg'.
           ++ same_hosp. apply Qlt_le_weak. exact (lt_inf_between _ _ _ Hlt1 Hlt).
           ++ exact (Hle _ _ _ _ Hin Hc' Hg').
        -- intros j' h' q' d' [Heq|Hin] Hc' Hg'.
           ++ same_hosp. exact (lt_inf_between _ _ _ Hlt1 Hlt).
           ++ exact (Hpre _ _ _ _ Hin Hc' Hg').
    + apply IH in Hs.
      destruct Hs as [(-> & -> & Hall)
                     |(pre & i & hosp & q & d & post & -> & Hc1 & Hg1 & -> & -> & Hlt1 & Hle & Hpre)].
      * left. repeat split.
        intros j' h' q' d' [Heq|Hin] Hc' Hg'.
        -- same_hosp.
        -- exact (Hall _ _ _ _ Hin Hc' Hg').
      * right. exists ((j, h) :: pre), i, hosp, q, d, post.
        repeat split; auto.
        -- intros j' h' q' d' [Heq|Hin] Hc' Hg'.
           ++ same_hosp.
           ++ exact (Hle _ _ _ _ Hin Hc' Hg').
        -- intros j' h' q' d' [Heq|Hin] Hc' Hg'.
           ++ same_hosp.
           ++ exact (Hpre _ _ _ _ Hin Hc' Hg').
Qed.


End Scan.

Lemma indexed_go_lookup {A} (l : list A) s k :
  zip (seq s (length l)) l !! k = (fun x => (s + k, x)%nat) <$> l !! k.
Proof.
  revert s k. induction l as [|x l IH]; intros s k; [reflexivity|].
  destruct k as [|k]; simpl.
  - rewrite Nat.add_0_r. reflexivity.
  - rewrite IH. destruct (l !! k); simpl; [|reflexivity].
    do 2 f_equal. lia.
Qed.

Lemma indexed_lookup {A} (l : list A) k :
  indexed l !! k = (fun x => (k, x)) <$> l !! k.
Proof. unfold indexed. apply indexed_go_lookup. Qed.

Lemma indexed_length {A} (l : list A) : length (indexed l) = length l.
Proof. unfold indexed. rewrite length_zip, length_seq. lia. Qed.

Lemma indexed_fst {A} (l : list A) : map fst (indexed l) = seq 0 (length l).
Proof.
  unfold indexed. generalize 0%nat. induction l as [|x l IH]; intros s; simpl; congruence.
Qed.

Section Loop.
Context {Row Pt : Type}.
Variable coords : Row -> option Pt.
Variable geodesic : Pt -> Pt -> option Q.

Lemma assign_loop_spec hs cs acc res :
  assign_loop coords geodesic hs cs acc = Some res ->
  exists rs, res = acc ++ rs /\
    Forall2 (fun ic r => assign_one coords geodesic hs ic.1 ic.2 = Some r) cs rs.
Proof.
  revert acc. induction cs as [|[ci c] cs IH]; intros acc H; simpl in H.
  - inversion H; subst. exists []. rewrite app_nil_r. auto.
  - destruct (assign_one coords geodesic hs ci c) as [r|] eqn:Ha; [|discriminate].
    apply IH in H as (rs & -> & Hf). exists (r :: rs).
    rewrite <- app_assoc. split; [reflexivity|]. constructor; auto.
Qed.

Lemma comm_assigned_lookup communities hs res k comm :
  comm_assigned coords geodesic communities hs = Some res ->
  communities !! k = Some comm ->
  exists r, res !! k = Some r /\ assign_one coords geodesic hs k comm = Some r.
Proof.
  unfold comm_assigned. intros H Hk.
  apply assign_loop_spec in H as (rs & -> & Hf). simpl.
  assert (Hi : indexed communities !! k = Some (k, comm)).
  { rewrite indexed_lookup, Hk. reflexivity. }
  destruct (Forall2_lookup_l _ _ _ _ _ Hf Hi) as (r & Hr & Ha).
  exists r. auto.
Qed.

Lemma assign_one_idx hs k comm r :
  assign_one coords geodesic hs k comm = Some r -> r.1.1 = k.
Proof.
  unfold assign_one. destruct (coords comm) as [p|].
  - destruct (scan coords geodesic p hs None None) as [[m n]|]; intros H;
      inversion H; reflexivity.
  - intros H; inversion H; reflexivity.
Qed.

Lemma comm_assigned_spec communities hs res :
  comm_assigned coords geodesic communities hs = Some res ->
  Forall2 (fun ic r => assign_one coords geodesic hs ic.1 ic.2 = Some r)
    (indexed communities) res.
Proof.
  unfold comm_assigned. intros H.
  apply assign_loop_spec in H as (rs & -> & Hf). exact Hf.
Qed.

Lemma scan_total p hs m n :
  (forall p q, is_Some (geodesic p q)) ->
  is_Some (scan coords geodesic p hs m n).
Proof.
  intros Hg. revert m n.
  induction hs as [|[j h] hs IHh]; intros m n; simpl; [eauto|].
  destruct (coords h) as [q|]; [|apply IHh].
  destruct (Hg p q) as [d ->]. destruct (lt_inf d m); apply IHh.
Qed.

Lemma comm_assigned_total communities hs :
  (forall p q, is_Some (geodesic p q)) ->
  is_Some (comm_assigned coords geodesic communities hs).
Proof.
  intros Hg. unfold comm_assigned. generalize (@nil entry).
  induction (indexed communities) as [|[ci c] cs IH]; intros acc; simpl; [eauto|].
  assert (Ha : is_Some (assign_one coords geodesic hs ci c)).
  { unfold assign_one. destruct (coords c) as [p|]; [|eauto].
    destruct (scan_total p hs None None Hg) as [[m n] ->]. eauto. }
  destruct Ha as [r ->]. apply IH.
Qed.
End Loop.


Lemma Forall2_map_eq {A B C} (P : A -> B -> Prop) (f : B -> C) (g : A -> C) l1 l2 :
  (forall x y, P x y -> f y = g x) -> Forall2 P l1 l2 -> map f l2 = map g l1.
Proof. intros Hfg Hf. induction Hf; simpl; f_equal; auto. Qed.

Lemma in_zip_r {A B} (l1 : list A) (l2 : list B) x :
  In x (zip l1 l2) -> In x.2 l2.
Proof.
  revert l2. induction l1 as [|a l1 IH]; intros [|b l2] Hin; simpl in *; try tauto.
  destruct Hin as [<-|Hin]; [left; reflexivity|right; eauto].
Qed.

Section Claims.
Context {Row Pt : Type}.
Variable coords : Row -> option Pt.
Variable geodesic : Pt -> Pt -> option Q.

Lemma assign_loop_empty cs acc :
  assign_loop coords geodesic [] cs acc
  = Some (acc ++ map (fun ic : nat * Row => (ic.1, None, None)) cs).
Proof.
  revert acc. induction cs as [|[ci c] cs IH]; intros acc; simpl.
  - rewrite app_nil_r. reflexivity.
  - assert (Ha : assign_one coords geodesic [] ci c = Some (ci, None, None)).
    { unfold assign_one. destruct (coords c); reflexivity. }
    rewrite Ha, IH, <- app_assoc. reflexivity.
Qed.

(** C1: for a community whose coordinates parse, a completed run
    gives either (none, none), when no scanned hospital has parseable
    coordinates, or a hospital [i] at distance [d] with [d] at most
    the distance of every scanned hospital and strictly below the
    distance of every hospital before [i] in iteration order: the
    first strict minimum of the scan.  [hs] is the scanned frame: all
    hospitals in the default scripts, the eligible ones in the CSMBS
    script. *)
Theorem nearest_is_first_strict_minimum communities hs res k comm p :
  comm_assigned coords geodesic communities hs = Some res ->
  communities !! k = Some comm ->
  coords comm = Some p ->
  (res !! k = Some (k, None, None) /\
   forall j h, In (j, h) hs -> coords h = None)
  \/ (exists pre i hosp q d post,
        hs = pre ++ (i, hosp) :: post /\
        coords hosp = Some q /\ geodesic p q = Some d /\
        res !! k = Some (k, Some i, Some d) /\
        (forall j h q' d', In (j, h) hs -> coords h = Some q' ->
           geodesic p q' = Some d' -> (d <= d')%Q) /\
        (forall j h q' d', In (j, h) pre -> coords h = Some q' ->
           geodesic p q' = Some d' -> (d < d')%Q)).
Proof.
  intros Hrun Hk Hc.
  destruct (comm_assigned_lookup coords geodesic _ _ _ _ _ Hrun Hk) as (r & Hr & Ha).
  unfold assign_one in Ha. rewrite Hc in Ha.
  destruct (scan coords geodesic p hs None None) as [[m n]|] eqn:Hs; [|discriminate].
  inversion Ha; subst r. clear Ha.
  pose proof (scan_geodesic_ok coords geodesic p _ _ _ _ Hs) as Hok.
  apply scan_sound in Hs.
  destruct Hs as [(-> & -> & Hall)
                 |(pre & i & hosp & q & d & post & Hhs & Hc1 & Hg1 & -> & -> & _ & Hle & Hpre)].
  - left. split; [exact Hr|].
    intros j h Hin. destruct (coords h) as [q|] eqn:Hch; [|reflexivity].
    destruct (Hok _ _ _ Hin Hch) as [d Hd].
    specialize (Hall _ _ _ _ Hin Hch Hd). discriminate.
  - right. exists pre, i, hosp, q, d, post. repeat split; auto.
Qed.

(** C2: a completed run has one entry per community, labelled with
    the community's own index, in order and without repetition; the
    run completes whenever the distance function does not raise; a
    community whose coordinates do not parse, or for which no scanned
    hospital has parseable coordinates, gets (none, none). *)
Theorem one_entry_per_community communities hs :
  ((forall p q, is_Some (geodesic p q)) ->
   is_Some (comm_assigned coords geodesic communities hs)) /\
  (forall res, comm_assigned coords geodesic communities hs = Some res ->
     length res = length communities /\
     map (fun r : entry => r.1.1) res = seq 0 (length communities) /\
     NoDup (map (fun r : entry => r.1.1) res) /\
     (forall k comm, communities !! k = Some comm ->
        (coords comm = None \/ forall j h, In (j, h) hs -> coords h = None) ->
        res !! k = Some (k, None, None))).
Proof.
  split; [apply comm_assigned_total|].
  intros res Hrun.
  assert (Hmap : map (fun r : entry => r.1.1) res = seq 0 (length communities)).
  { rewrite <- (indexed_fst communities).
    apply (Forall2_map_eq _ _ _ _ _ (fun ic r H => assign_one_idx coords geodesic hs ic.1 ic.2 r H)).
    apply comm_assigned_spec. exact Hrun. }
  split; [|split; [exact Hmap|split]].
  - rewrite <- (length_map (fun r : entry => r.1.1) res), Hmap. apply length_seq.
  - rewrite Hmap. apply NoDup_seq.
  - intros k comm Hk Hnone.
    destruct (comm_assigned_lookup coords geodesic _ _ _ _ _ Hrun Hk) as (r & Hr & Ha).
    enough (r = (k, None, None)) by (subst r; exact Hr).
    unfold assign_one in Ha.
    destruct (coords comm) as [p|] eqn:Hc; [|congruence].
    destruct Hnone as [Hn|Hn]; [discriminate|].
    destruct (scan coords geodesic p hs None None) as [[m n]|] eqn:Hs; [|discriminate].
    inversion Ha; subst r. clear Ha.
    apply scan_sound in Hs.
    destruct Hs as [(-> & -> & _)|(pre & i & hosp & q & d & post & Hhs & Hc1 & _)];
      [reflexivity|].
    assert (Hin : In (i, hosp) hs) by (rewrite Hhs; apply in_or_app; right; left; reflexivity).
    rewrite (Hn _ _ Hin) in Hc1. discriminate.
Qed.

(** C6: when no hospital passes the eligibility test, the CSMBS run
    completes (no exception) and every community gets (none, none). *)
Theorem no_eligible_all_none (csmbs_accept : Row -> bool) (communities hospitals : list Row) :
  (forall h, In h hospitals -> csmbs_accept h = false) ->
  comm_assigned_csmbs coords geodesic csmbs_accept communities hospitals
  = Some (map (fun k => (k, None, None)) (seq 0 (length communities))).
Proof.
  intros Hnone. unfold comm_assigned_csmbs, comm_assigned.
  assert (He : csmbs_hospitals csmbs_accept hospitals = []).
  { unfold csmbs_hospitals.
    assert (Hall : forall ih, In ih (indexed hospitals) -> csmbs_accept ih.2 = false).
    { intros ih Hin. apply Hnone. exact (in_zip_r _ _ _ Hin). }
    induction (indexed hospitals) as [|ih l IH]; [reflexivity|].
    rewrite filter_cons. rewrite (Hall ih (or_introl eq_refl)).
    simpl. apply IH. intros ih' Hin. apply Hall. right. exact Hin. }
  rewrite He, assign_loop_empty. simpl.
  rewrite <- (indexed_fst communities), map_map. reflexivity.
Qed.
End Claims.

End AssignProofs.

Module WeightProofs.
Import Assign Weights AssignProofs.

Section Nearest.
Context {Row Pt : Type}.
Variable coords : Row -> option Pt.
Variable geodesic : Pt -> Pt -> option Q.

Lemma assign_one_nearest_in hs k comm r i :
  assign_one coords geodesic hs k comm = Some r -> r.1.2 = Some i ->
  In i (map fst hs).
Proof.
  unfold assign_one. destruct (coords comm) as [p|]; [|intros H; inversion H; subst; discriminate].
  destruct (scan coords geodesic p hs None None) as [[m n]|] eqn:Hs; [|discriminate].
  intros H; inversion H; subst r; clear H. simpl. intros ->.
  apply scan_sound in Hs.
  destruct Hs as [(_ & Hn & _)|(pre & i' & hosp & q & d & post & -> & _ & _ & _ & Hn & _)];
    [discriminate|].
  inversion Hn; subst. rewrite map_app. apply in_or_app. right. left. reflexivity.
Qed.

Lemma comm_assigned_nearest_in communities hs res :
  comm_assigned coords geodesic communities hs = Some res ->
  forall r i, In r res -> r.1.2 = Some i -> In i (map fst hs).
Proof.
  intros Hrun. apply comm_assigned_spec in Hrun.
  induction Hrun as [|ic r ics rs Ha Hf IH]; intros r' i Hin Hi; [destruct Hin|].
  destruct Hin as [<-|Hin]; [|eauto].
  exact (assign_one_nearest_in _ _ _ _ _ Ha Hi).
Qed.
End Nearest.

Section Sum.
Variable labels : list nat.
Hypothesis labels_nodup : NoDup labels.

Lemma weight_init_lookup l :
  In l labels -> weight_init labels !! l = Some 0%nat.
Proof.
  unfold weight_init. clear labels_nodup. induction labels as [|a ls IH]; [intros []|].
  intros Hin. cbn [map]. rewrite list_to_map_cons.
  destruct (decide (a = l)) as [->|Hne].
  - apply lookup_insert_eq.
  - rewrite lookup_insert_ne by exact Hne. apply IH.
    destruct Hin as [->|Hin]; [congruence|exact Hin].
Qed.

Lemma total_weight_init : total_weight labels (weight_init labels) = 0%nat.
Proof.
  unfold total_weight.
  assert (H : forall ls, (forall l, In l ls -> In l labels) ->
              sum_list (map (weight_of (weight_init labels)) ls) = 0%nat).
  { induction ls as [|a ls IH]; intros Hsub; [reflexivity|]. simpl.
    unfold weight_of at 1. rewrite weight_init_lookup by (apply Hsub; left; reflexivity).
    simpl. apply IH. intros l Hl. apply Hsub. right. exact Hl. }
  apply H. auto.
Qed.

Lemma weight_of_insert_ne w h v l : h <> l -> weight_of (<[h := v]> w) l = weight_of w l.
Proof. intros Hne. unfold weight_of. rewrite lookup_insert_ne by exact Hne. reflexivity. Qed.

Lemma sum_insert_fresh w h v ls :
  ~ In h ls -> sum_list (map (weight_of (<[h := v]> w)) ls) = sum_list (map (weight_of w) ls).
Proof.
  induction ls as [|a ls IH]; intros Hn; [reflexivity|]. simpl.
  rewrite weight_of_insert_ne by (intros ->; apply Hn; left; reflexivity).
  rewrite IH by (intros Hin; apply Hn; right; exact Hin). reflexivity.
Qed.

Lemma sum_bump w h x ls :
  NoDup ls -> In h ls -> w !! h = Some x ->
  sum_list (map (weight_of (<[h := S x]> w)) ls) = S (sum_list (map (weight_of w) ls)).
Proof.
  intros Hnd. induction Hnd as [|a ls Hna Hnd IH]; intros Hin Hw; [destruct Hin|]. simpl.
  destruct (decide (a = h)) as [->|Hne].
  - rewrite sum_insert_fresh by (rewrite <- list_elem_of_In; exact Hna).
    unfold weight_of at 1 3. rewrite lookup_insert_eq, Hw. simpl. lia.
  - rewrite weight_of_insert_ne by (intros ->; congruence).
    rewrite IH; [lia| |exact Hw]. destruct Hin as [->|Hin]; [congruence|exact Hin].
Qed.

Lemma add_entry_total w r :
  covers labels w -> (forall i, r.1.2 = Some i -> In i labels) ->
  covers labels (add_entry w r) /\
  total_weight labels (add_entry w r)
    = (total_weight labels w + (if decide (is_Some r.1.2) then 1 else 0))%nat.
Proof.
  intros Hcov Hlab. destruct r as [[c [h|]] d]; simpl in *.
  - specialize (Hlab h eq_refl). destruct (Hcov h Hlab) as [x Hx].
    unfold bump. rewrite Hx. split.
    + intros l Hl. destruct (decide (h = l)) as [->|Hne].
      * rewrite lookup_insert_eq. eauto.
      * rewrite lookup_insert_ne by exact Hne. apply Hcov. exact Hl.
    + unfold total_weight. rewrite (sum_bump _ _ _ _ labels_nodup Hlab Hx). lia.
  - split; [exact Hcov|lia].
Qed.

Lemma fold_total res w :
  covers labels w -> (forall r i, In r res -> r.1.2 = Some i -> In i labels) ->
  total_weight labels (foldl add_entry w res) = (total_weight labels w + assigned_count res)%nat.
Proof.
  revert w. induction res as [|r res IH]; intros w Hcov Hlab; simpl; [unfold assigned_count; simpl; lia|].
  destruct (add_entry_total w r Hcov (fun i Hi => Hlab r i (or_introl eq_refl) Hi)) as [Hc' Ht].
  rewrite IH; [|exact Hc'|intros r' i Hin; apply Hlab; right; exact Hin].
  rewrite Ht. unfold assigned_count. rewrite filter_cons.
  destruct (decide (is_Some r.1.2)); simpl; lia.
Qed.
End Sum.

(** C7: after a completed default run, the weights summed over all
    hospitals equal the number of communities whose entry names a
    hospital. *)
Theorem weight_conservation {Row Pt : Type} (coords : Row -> option Pt)
    (geodesic : Pt -> Pt -> option Q) (communities hospitals : list Row) res :
  comm_assigned_default coords geodesic communities hospitals = Some res ->
  total_weight (seq 0 (length hospitals)) (hosp_weights (seq 0 (length hospitals)) res)
  = assigned_count res.
Proof.
  intros Hrun. unfold hosp_weights.
  rewrite fold_total.
  - rewrite total_weight_init. reflexivity.
  - apply NoDup_seq.
  - intros l Hl. rewrite weight_init_lookup by exact Hl. eauto.
  - intros r i Hin Hi.
    pose proof (comm_assigned_nearest_in coords geodesic _ _ _ Hrun r i Hin Hi) as H.
    rewrite indexed_fst in H. exact H.
Qed.

End WeightProofs.

Module DistrictProofs.
Import Assign Weights Districts AssignProofs WeightProofs.

(** [weight[i]] counts the entries that name hospital [i]. *)
Lemma hosp_weights_count labels res i :
  In i labels ->
  weight_of (hosp_weights labels res) i
  = length (filter (fun r : entry => r.1.2 = Some i) res).
Proof.
  intros Hi. unfold hosp_weights.
  assert (H : forall w x, w !! i = Some x ->
            weight_of (foldl add_entry w res) i
            = (x + length (filter (fun r : entry => r.1.2 = Some i) res))%nat).
  { induction res as [|r res IH]; intros w x Hw; simpl.
    - unfold weight_of. rewrite Hw. simpl. lia.
    - rewrite filter_cons. destruct r as [[c [h|]] d]; simpl.
      + unfold bump. destruct (w !! h) as [y|] eqn:Hy.
        * destruct (decide (h = i)) as [->|Hne].
          -- rewrite decide_True by reflexivity. simpl.
             rewrite (IH _ (S y)) by apply lookup_insert_eq.
             rewrite Hw in Hy. inversion Hy; subst. lia.
          -- rewrite decide_False by congruence.
             apply IH. rewrite lookup_insert_ne by exact Hne. exact Hw.
        * destruct (decide (h = i)) as [->|Hne]; [congruence|].
          rewrite decide_False by congruence. apply IH. exact Hw.
      + try (rewrite decide_False by discriminate). apply IH. exact Hw. }
  rewrite (H _ 0%nat) by (apply weight_init_lookup; exact Hi). lia.
Qed.

Section Aggregate.
Context {Row Pt Poly : Type}.
Variable coords : Row -> option Pt.
Variable contains : Poly -> Pt -> bool.
Variable centroid_hit : Poly -> Poly -> bool.

Local Abbreviation feature := (@feature Poly).

Lemma first_match_in (feats : list feature) pt n :
  first_match contains feats pt = Some n -> In n (map f_name feats).
Proof.
  induction feats as [|f fs IH]; simpl; [discriminate|].
  destruct (f_shape f) as [poly|]; [destruct (contains poly pt)|]; intros H.
  - inversion H. left. reflexivity.
  - right. auto.
  - right. auto.
Qed.

Lemma init_go_lookup (feats : list feature) (n : option string) (m : gmap (option string) Metrics) :
  (In n (map f_name feats) ->
     foldl (fun (m : gmap (option string) Metrics) f => <[f_name f := zero_metrics]> m) m feats !! n = Some zero_metrics) /\
  (~ In n (map f_name feats) ->
     foldl (fun (m : gmap (option string) Metrics) f => <[f_name f := zero_metrics]> m) m feats !! n = m !! n).
Proof.
  revert m. induction feats as [|f fs IH]; intros m; simpl.
  - split; [tauto|reflexivity].
  - destruct (IH (<[f_name f := zero_metrics]> m)) as [IH1 IH2]. split.
    + intros Hin. destruct (in_dec (decide_rel eq) n (map f_name fs)) as [H|H]; [auto|].
      rewrite IH2 by exact H. destruct Hin as [Heq|Hin]; [rewrite <- Heq; apply lookup_insert_eq|tauto].
    + intros Hn. rewrite IH2 by tauto. apply lookup_insert_ne. intros Heq. apply Hn. left. exact Heq.
Qed.

Lemma init_metrics_lookup (feats : list feature) (n : option string) :
  (In n (map f_name feats) -> init_metrics feats !! n = Some zero_metrics) /\
  (~ In n (map f_name feats) -> init_metrics feats !! n = None).
Proof.
  destruct (init_go_lookup feats n ∅) as [H1 H2]. split; [exact H1|].
  intros Hn. unfold init_metrics. rewrite H2 by exact Hn. apply lookup_empty.
Qed.

Lemma add_hospital_lookup (feats : list feature) wcol m ih n :
  add_hospital coords contains feats wcol m ih !! n
  = if matched_to coords contains feats n ih.2
    then Some (let x := default zero_metrics (m !! n) in
               mkMetrics (S (num_hospitals x)) (num_communities x)
                 (sum_hospital_weights x + weight_get wcol ih.1))
    else m !! n.
Proof.
  unfold add_hospital, matched_to. destruct (coords ih.2) as [pt|]; [|reflexivity].
  destruct (first_match contains feats pt) as [k|] eqn:Hf.
  - unfold update. destruct (decide (k = n)) as [->|Hne].
    + rewrite bool_decide_true by reflexivity. apply lookup_insert_eq.
    + rewrite bool_decide_false by congruence. apply lookup_insert_ne. exact Hne.
  - rewrite bool_decide_false by discriminate. reflexivity.
Qed.

Lemma add_community_lookup (feats : list feature) m ic n :
  add_community coords contains feats m ic !! n
  = if matched_to coords contains feats n ic.2
    then Some (let x := default zero_metrics (m !! n) in
               mkMetrics (num_hospitals x) (S (num_communities x)) (sum_hospital_weights x))
    else m !! n.
Proof.
  unfold add_community, matched_to. destruct (coords ic.2) as [pt|]; [|reflexivity].
  destruct (first_match contains feats pt) as [k|] eqn:Hf.
  - unfold update. destruct (decide (k = n)) as [->|Hne].
    + rewrite bool_decide_true by reflexivity. apply lookup_insert_eq.
    + rewrite bool_decide_false by congruence. apply lookup_insert_ne. exact Hne.
  - rewrite bool_decide_false by discriminate. reflexivity.
Qed.

Lemma fold_hospitals_lookup (feats : list feature) wcol n l m x :
  m !! n = Some x ->
  foldl (add_hospital coords contains feats wcol) m l !! n
  = Some (mkMetrics (num_hospitals x + length (matched_rows coords contains feats n l)) (num_communities x)
            (sum_hospital_weights x
             + sum_list (map (fun ih : nat * Row => weight_get wcol ih.1) (matched_rows coords contains feats n l)))).
Proof.
  revert m x. induction l as [|ih l IH]; intros m x Hm; simpl.
  - rewrite Hm. destruct x; simpl. f_equal. f_equal; lia.
  - unfold matched_rows. rewrite filter_cons.
    destruct (matched_to coords contains feats n ih.2) eqn:Hmt.
    + rewrite decide_True by reflexivity.
      rewrite (IH _ (mkMetrics (S (num_hospitals x)) (num_communities x)
                       (sum_hospital_weights x + weight_get wcol ih.1))).
      * unfold matched_rows. simpl. f_equal. f_equal; lia.
      * rewrite add_hospital_lookup, Hmt, Hm. reflexivity.
    + rewrite decide_False by congruence. apply IH.
      rewrite add_hospital_lookup, Hmt. exact Hm.
Qed.

Lemma fold_communities_lookup (feats : list feature) n l m x :
  m !! n = Some x ->
  foldl (add_community coords contains feats) m l !! n
  = Some (mkMetrics (num_hospitals x)
            (num_communities x + length (matched_rows coords contains feats n l)) (sum_hospital_weights x)).
Proof.
  revert m x. induction l as [|ic l IH]; intros m x Hm; simpl.
  - rewrite Hm. destruct x; simpl. f_equal. f_equal; lia.
  - unfold matched_rows. rewrite filter_cons.
    destruct (matched_to coords contains feats n ic.2) eqn:Hmt.
    + rewrite decide_True by reflexivity.
      rewrite (IH _ (mkMetrics (num_hospitals x) (S (num_communities x))
                       (sum_hospital_weights x))).
      * unfold matched_rows. simpl. f_equal. f_equal; lia.
      * rewrite add_community_lookup, Hmt, Hm. reflexivity.
    + rewrite decide_False by congruence. apply IH.
      rewrite add_community_lookup, Hmt. exact Hm.
Qed.

(** The bucket of a feature name merges every hospital and community
    whose first containing polygon carries that name. *)
Lemma district_metrics_lookup (feats : list feature) wcol hospitals communities n :
  In n (map f_name feats) ->
  district_metrics_run coords contains feats wcol hospitals communities !! n
  = Some (mkMetrics (length (matched_rows coords contains feats n (indexed hospitals)))
            (length (matched_rows coords contains feats n (indexed communities)))
            (sum_list (map (fun ih : nat * Row => weight_get wcol ih.1)
                           (matched_rows coords contains feats n (indexed hospitals))))).
Proof.
  intros Hin. unfold district_metrics_run.
  rewrite (fold_communities_lookup _ _ _ _
             (mkMetrics (length (matched_rows coords contains feats n (indexed hospitals))) 0
                (sum_list (map (fun ih : nat * Row => weight_get wcol ih.1)
                               (matched_rows coords contains feats n (indexed hospitals)))))).
  - reflexivity.
  - rewrite (fold_hospitals_lookup _ _ _ _ _ zero_metrics); [reflexivity|].
    apply init_metrics_lookup. exact Hin.
Qed.
End Aggregate.

Section Claims.
Context {Row Pt Poly : Type}.
Variable coords : Row -> option Pt.
Variable geodesic : Pt -> Pt -> option Q.
Variable contains : Poly -> Pt -> bool.
Variable centroid_hit : Poly -> Poly -> bool.

Local Abbreviation feature := (@feature Poly).

Lemma in_indexed_label {A} (l : list A) ih :
  In ih (indexed l) -> In ih.1 (seq 0 (length l)).
Proof.
  intros Hin. rewrite <- indexed_fst. apply in_map. exact Hin.
Qed.

(** C3: in the default pipeline, the bucket of a district name sums,
    over the hospitals with parseable coordinates whose first containing
    polygon (input order) carries that name, the number of communities
    the same run assigned to each of them. *)
Theorem district_weight_sum_first_match (feats : list feature)
    (communities hospitals : list Row) res w m n :
  Pipeline.default_run coords geodesic contains feats communities hospitals = Some (res, w, m) ->
  In n (map f_name feats) ->
  exists x, m !! n = Some x /\
    sum_hospital_weights x
    = sum_list (map (fun ih : nat * Row => length (filter (fun r : entry => r.1.2 = Some ih.1) res))
                    (matched_rows coords contains feats n (indexed hospitals))).
Proof.
  unfold Pipeline.default_run. intros Hrun Hin.
  destruct (comm_assigned_default coords geodesic communities hospitals) as [res0|];
    [|discriminate].
  inversion Hrun; subst res w m; clear Hrun.
  rewrite (district_metrics_lookup coords contains _ _ _ _ _ Hin).
  eexists; split; [reflexivity|]. simpl. f_equal.
  apply map_ext_in. intros ih Hih. simpl.
  apply hosp_weights_count.
  apply in_indexed_label. unfold matched_rows in Hih.
  apply list_elem_of_In in Hih. apply list_elem_of_filter in Hih as [_ Hih].
  apply list_elem_of_In. exact Hih.
Qed.

Lemma first_match_none (feats : list feature) pt :
  (forall f poly, In f feats -> f_shape f = Some poly -> contains poly pt = false) ->
  first_match contains feats pt = None.
Proof.
  induction feats as [|f fs IH]; intros Hno; simpl; [reflexivity|].
  destruct (f_shape f) as [poly|] eqn:Hs.
  - rewrite (Hno f poly (or_introl eq_refl) Hs). apply IH. intros g p' Hg. apply Hno. right. exact Hg.
  - apply IH. intros g p' Hg. apply Hno. right. exact Hg.
Qed.

Lemma first_match_first (pre post : list feature) f poly pt :
  f_shape f = Some poly -> contains poly pt = true ->
  (forall g poly', In g pre -> f_shape g = Some poly' -> contains poly' pt = false) ->
  first_match contains (pre ++ f :: post) pt = Some (f_name f).
Proof.
  intros Hs Hc. induction pre as [|g pre IH]; intros Hpre; simpl.
  - rewrite Hs, Hc. reflexivity.
  - destruct (f_shape g) as [p'|] eqn:Hg.
    + rewrite (Hpre g p' (or_introl eq_refl) Hg). apply IH.
      intros g' p'' Hin. apply Hpre. right. exact Hin.
    + apply IH. intros g' p'' Hin. apply Hpre. right. exact Hin.
Qed.

(** C4 (amended): a community is counted in the bucket of the first
    polygon, in input order, that [contains] its point; a point that no
    polygon [contains] (with shapely, a point on a boundary shared by
    two districts) is counted in no bucket. *)
Theorem community_first_containing_region (feats : list feature) wcol
    (hospitals communities : list Row) n :
  In n (map f_name feats) ->
  (exists x, district_metrics_run coords contains feats wcol hospitals communities !! n = Some x /\
     num_communities x = length (matched_rows coords contains feats n (indexed communities))) /\
  (forall pt, (forall f poly, In f feats -> f_shape f = Some poly -> contains poly pt = false) ->
     first_match contains feats pt = None) /\
  (forall pre f post poly pt, feats = pre ++ f :: post ->
     f_shape f = Some poly -> contains poly pt = true ->
     (forall g poly', In g pre -> f_shape g = Some poly' -> contains poly' pt = false) ->
     first_match contains feats pt = Some (f_name f)).
Proof.
  intros Hin. split; [|split].
  - rewrite (district_metrics_lookup coords contains _ _ _ _ _ Hin). eauto.
  - apply first_match_none.
  - intros pre f post poly pt ->. apply first_match_first.
Qed.

(** C10: the counters written into a feature are those of the bucket
    of its name, which merges the hospitals and communities of every
    feature with that name; two features with the same name carry the
    same counters. *)
Theorem same_name_shared_bucket (feats : list feature) wcol
    (hospitals communities : list Row) i j fi fj :
  feats !! i = Some fi -> feats !! j = Some fj -> f_name fi = f_name fj ->
  let outs := out_features centroid_hit feats
                (district_metrics_run coords contains feats wcol hospitals communities) in
  outs !! i = outs !! j /\
  outs !! i = Some (mkMetrics
                      (length (matched_rows coords contains feats (f_name fi) (indexed hospitals)))
                      (length (matched_rows coords contains feats (f_name fi) (indexed communities)))
                      (sum_list (map (fun ih : nat * Row => weight_get wcol ih.1)
                         (matched_rows coords contains feats (f_name fi) (indexed hospitals))))).
Proof.
  intros Hi Hj Hn outs.
  assert (Hout : forall k fk, feats !! k = Some fk ->
            outs !! k = Some (injected centroid_hit feats
              (district_metrics_run coords contains feats wcol hospitals communities) fk)).
  { intros k fk Hk. unfold outs, out_features. rewrite list_lookup_fmap, Hk. reflexivity. }
  assert (Hinj : forall fk, In fk feats ->
            injected centroid_hit feats
              (district_metrics_run coords contains feats wcol hospitals communities) fk
            = mkMetrics
                (length (matched_rows coords contains feats (f_name fk) (indexed hospitals)))
                (length (matched_rows coords contains feats (f_name fk) (indexed communities)))
                (sum_list (map (fun ih : nat * Row => weight_get wcol ih.1)
                   (matched_rows coords contains feats (f_name fk) (indexed hospitals))))).
  { intros fk Hfk. unfold injected.
    rewrite (district_metrics_lookup coords contains _ _ _ _ _ (in_map f_name _ _ Hfk)).
    reflexivity. }
  assert (Hii : In fi feats) by (apply list_elem_of_In, list_elem_of_lookup; eauto).
  assert (Hjj : In fj feats) by (apply list_elem_of_In, list_elem_of_lookup; eauto).
  rewrite (Hout i fi Hi), (Hout j fj Hj).
  rewrite (Hinj fi Hii), (Hinj fj Hjj), Hn. split; reflexivity.
Qed.
End Claims.

End DistrictProofs.

Module NormProofs.
Import Districts.

Lemma lookup_map_opt {A B} (f : A -> B) (l : list A) k :
  map f l !! k = option_map f (l !! k).
Proof.
  revert k. induction l as [|a l IH]; intros [|k]; simpl; auto.
Qed.

Lemma foldr_max_ge (l : list nat) x : In x l -> (x <= foldr Nat.max 0 l)%nat.
Proof.
  induction l as [|a l IH]; simpl; [tauto|]. intros [->|Hin]; [lia|].
  specialize (IH Hin). lia.
Qed.

Lemma foldr_max_attained (l : list nat) :
  l <> [] -> exists k, l !! k = Some (foldr Nat.max 0 l).
Proof.
  induction l as [|a l IH]; intros Hne; [congruence|]. simpl.
  destruct l as [|b l'].
  - exists 0%nat. simpl. f_equal. lia.
  - destruct IH as [k Hk]; [discriminate|].
    destruct (Nat.max_spec a (foldr Nat.max 0 (b :: l'))) as [[_ ->]|[_ ->]].
    + exists (S k). exact Hk.
    + exists 0%nat. reflexivity.
Qed.

Lemma global_max_nonempty (sums : list nat) :
  sums <> [] -> global_max sums = foldr Nat.max 0 sums.
Proof. destruct sums; [congruence|reflexivity]. Qed.

(** C8: with [mx] the largest district sum, each normalised value is
    the district's sum divided by [mx], or 0 when [mx] is 0; all values
    lie in [0, 1], and when some district sum is non-zero some district
    has the value 1. *)
Theorem choropleth_norm_bounds (outs : list Metrics) :
  let sums := map sum_hospital_weights outs in
  let mx := foldr Nat.max 0%nat sums in
  (forall k s, sums !! k = Some s ->
     exists q, choropleth_norm outs !! k = Some q /\
       (if (mx =? 0)%nat then q = 0%Q
        else q = (inject_Z (Z.of_nat s) / inject_Z (Z.of_nat mx))%Q) /\
       (0 <= q <= 1)%Q) /\
  ((exists s, In s sums /\ s <> 0%nat) ->
     exists k q, choropleth_norm outs !! k = Some q /\ (q == 1)%Q).
Proof.
  intros sums mx.
  assert (Hpart : forall k s, sums !! k = Some s ->
     exists q, choropleth_norm outs !! k = Some q /\
       (if (mx =? 0)%nat then q = 0%Q
        else q = (inject_Z (Z.of_nat s) / inject_Z (Z.of_nat mx))%Q) /\
       (0 <= q <= 1)%Q).
  { intros k s Hk.
    assert (Hne : sums <> []) by (intros E; rewrite E in Hk; discriminate).
    assert (Hs : In s sums) by (apply list_elem_of_In, list_elem_of_lookup; eauto).
    assert (Hle : (s <= mx)%nat) by (apply foldr_max_ge; exact Hs).
    unfold choropleth_norm. fold sums. rewrite (global_max_nonempty _ Hne). fold mx.
    rewrite lookup_map_opt, Hk. simpl. eexists; split; [reflexivity|].
    destruct (Nat.eqb_spec mx 0) as [H0|H0].
    - rewrite H0. simpl. split; [reflexivity|]. split; discriminate.
    - assert (Hlt : (0 <? mx)%nat = true) by (apply Nat.ltb_lt; lia). rewrite Hlt.
      split; [reflexivity|].
      assert (Hpos : (0 < inject_Z (Z.of_nat mx))%Q) by (change 0%Q with (inject_Z 0); rewrite <- Zlt_Qlt; lia).
      split.
      + apply Qle_shift_div_l; [exact Hpos|]. rewrite Qmult_0_l.
        change 0%Q with (inject_Z 0). rewrite <- Zle_Qle. lia.
      + apply Qle_shift_div_r; [exact Hpos|]. rewrite Qmult_1_l.
        rewrite <- Zle_Qle. lia. }
  split; [exact Hpart|].
  intros (s & Hs & Hs0).
  assert (Hne : sums <> []) by (intros E; rewrite E in Hs; destruct Hs).
  destruct (foldr_max_attained _ Hne) as [k Hk]. fold mx in Hk.
  destruct (Hpart k mx Hk) as (q & Hq & Hv & _).
  assert (Hmx : mx <> 0%nat) by (pose proof (foldr_max_ge _ _ Hs); fold mx in H; lia).
  exists k, q. split; [exact Hq|].
  destruct (Nat.eqb_spec mx 0) as [H0|_]; [contradiction|]. rewrite Hv.
  assert (Hpos : (0 < inject_Z (Z.of_nat mx))%Q) by (change 0%Q with (inject_Z 0); rewrite <- Zlt_Qlt; lia).
  unfold Qdiv. apply Qmult_inv_r. intros H. rewrite H in Hpos. exact (Qlt_irrefl 0 Hpos).
Qed.

End NormProofs.

Module LoaderProofs.
Import PyFloat Loader.

Section Load.
Variable to_numeric_text : string -> option num.
Variable int64_overflow : Q -> Z.

Local Abbreviation coerce := (coerce_int to_numeric_text int64_overflow).
Local Abbreviation rows_ok := (coerce_rows to_numeric_text int64_overflow).
Local Abbreviation load := (load_table to_numeric_text int64_overflow).

Lemma coerce_rows_none rows :
  rows_ok rows = None <-> exists r, In r rows /\ coerce (rr_count r) = None.
Proof.
  induction rows as [|a rows IH]; simpl.
  - split; [discriminate|]. intros (r & [] & _).
  - destruct (coerce (rr_count a)) as [n|] eqn:Ea;
      destruct (rows_ok rows) as [xs|] eqn:Er.
    + split; [discriminate|]. intros (r & [<-|Hin] & Hr); [congruence|].
      assert (H : Some xs = None) by (apply IH; exists r; auto). discriminate.
    + split; [|reflexivity]. intros _.
      destruct (proj1 IH eq_refl) as (r & Hin & Hr). exists r. auto.
    + split; [|reflexivity]. intros _. exists a. auto.
    + split; [|reflexivity]. intros _. exists a. auto.
Qed.

Lemma coerce_rows_some rows out :
  rows_ok rows = Some out ->
  Forall2 (fun r x => r_lat x = rr_lat r /\ r_lon x = rr_lon r /\
             Some (r_count x) = coerce (rr_count r)) rows out.
Proof.
  revert out. induction rows as [|a rows IH]; intros out H; simpl in H.
  - inversion H; subst. constructor.
  - destruct (coerce (rr_count a)) as [n|] eqn:Ea; [|discriminate].
    destruct (rows_ok rows) as [xs|]; [|discriminate].
    inversion H; subst out. constructor; [simpl; auto|]. apply IH. reflexivity.
Qed.

Lemma load_none t has_coords has_col rows :
  load t has_coords has_col rows = None <->
    has_coords = false \/
    (has_col = true /\ exists r, In r rows /\ coerce (rr_count r) = None) \/
    (has_col = false /\ t = Hospitals).
Proof.
  unfold load_table. destruct has_coords; simpl.
  - destruct has_col.
    + rewrite coerce_rows_none. split.
      * intros H. right. left. auto.
      * intros [H|[[_ H]|[H _]]]; [discriminate|exact H|discriminate].
    + destruct t; split.
      * intros _. right. right. auto.
      * reflexivity.
      * discriminate.
      * intros [H|[[H _]|[_ H]]]; discriminate.
  - split; [intros _; left; reflexivity|reflexivity].
Qed.

Lemma counts_none rows rows' :
  map rr_count rows' = map rr_count rows ->
  (exists r, In r rows' /\ coerce (rr_count r) = None) <->
  (exists r, In r rows /\ coerce (rr_count r) = None).
Proof.
  intros Hm. split; intros (r & Hin & Hr).
  - assert (Hc : In (rr_count r) (map rr_count rows)) by (rewrite <- Hm; apply in_map; exact Hin).
    apply in_map_iff in Hc as (r' & Heq & Hin'). exists r'. rewrite Heq. auto.
  - assert (Hc : In (rr_count r) (map rr_count rows')) by (rewrite Hm; apply in_map; exact Hin).
    apply in_map_iff in Hc as (r' & Heq & Hin'). exists r'. rewrite Heq. auto.
Qed.


End Load.

End LoaderProofs.

Module TruthyProofs.
Import PyFloat Truthy.

(** C5: [truthy] is true exactly on present cells whose stripped,
    lower-cased text is one of "1", "y", "yes", "true", "รับ", "ใช่",
    "t", "on", or a float literal whose value is > 0; on the inputs
    "1", "yes", "TRUE", " y ", "0", "no", "", missing, "2.5", "-1" it
    gives T, T, T, T, F, F, F, F, T, F.  Python's [float] also reads
    non-ASCII decimal digits, so the Thai "๑" and the full-width "１"
    (both one) are truthy, while the Thai "๐" (zero) and the
    full-width "ＹＥＳ" (no float, and not "yes" once lower-cased) are
    not. *)
Theorem truthy_spec :
  (forall val, truthy val = true <->
     exists raw, val = Some raw /\
       (In (norm raw) (map list_of accepted) \/
        exists f, py_float (norm raw) = Some f /\ gt0 f = true)) /\
  map truthy [Some "1"; Some "yes"; Some "TRUE"; Some " y "; Some "0"; Some "no";
              Some ""; None; Some "2.5"; Some "-1"]%string
  = [true; true; true; true; false; false; false; false; true; false] /\
  map truthy [Some "๑"; Some "１"; Some "๐"; Some "ＹＥＳ"]%string
  = [true; true; false; false].
Proof.
  split; [|split; vm_compute; reflexivity].
  intros [raw|]; unfold truthy; cbv beta iota zeta.
  - split.
    + intros H. exists raw. split; [reflexivity|].
      destruct (existsb (fun w => bool_decide (norm raw = list_of w)) accepted) eqn:He.
      * left. apply existsb_exists in He as (w & Hw & Heq).
        apply bool_decide_eq_true in Heq. rewrite Heq. apply in_map. exact Hw.
      * right. destruct (py_float (norm raw)) as [f|]; [eauto|discriminate].
    + intros (r & Hr & [Hin|(f & Hf & Hg)]); inversion Hr; subst r.
      * apply in_map_iff in Hin as (w & Heq & Hw).
        assert (He : existsb (fun w => bool_decide (norm raw = list_of w)) accepted = true).
        { apply existsb_exists. exists w. split; [exact Hw|]. apply bool_decide_eq_true. auto. }
        rewrite He. reflexivity.
      * rewrite Hf, Hg. destruct (existsb _ _); reflexivity.
  - split; [discriminate|]. intros (r & Hr & _). discriminate.
Qed.

Lemma digits_all l acc cnt :
  forallb is_digit l = true ->
  digits acc cnt l =
    (fold_left (fun a c => (a * 10 + digit_val c)%N) l acc, (cnt + length l)%nat, []).
Proof.
  revert acc cnt. induction l as [|c l IH]; intros acc cnt Hd.
  - simpl. rewrite Nat.add_0_r. reflexivity.
  - simpl in Hd. apply andb_prop in Hd as [Hc Hd].
    simpl. rewrite Hc. rewrite IH by exact Hd. f_equal. f_equal. simpl. lia.
Qed.

Lemma digit_neq c a :
  is_digit c = true -> is_digit a = false -> Ascii.eqb a c = false.
Proof.
  intros Hc Ha. destruct (Ascii.eqb a c) eqn:E; [|reflexivity].
  apply Ascii.eqb_eq in E. subst a. congruence.
Qed.

Lemma digit_neq_r c a :
  is_digit c = true -> is_digit a = false -> Ascii.eqb c a = false.
Proof. intros Hc Ha. rewrite Ascii.eqb_sym. apply digit_neq; assumption. Qed.

Lemma first_some_digit ps c l :
  forallb (fun p => match p with a :: _ => negb (is_digit a) | [] => false end) ps = true -> is_digit c = true ->
  first_some (fun p => drop_prefix p (c :: l)) ps = None.
Proof.
  intros Hps Hc. induction ps as [|[|a p] ps IH]; [reflexivity|discriminate|].
  simpl in Hps. apply andb_prop in Hps as [Ha Hps].
  apply negb_true_iff in Ha.
  simpl. rewrite (digit_neq c a Hc Ha). apply IH, Hps.
Qed.

Lemma ws_seqs_nondigit : forallb (fun p => match p with a :: _ => negb (is_digit a) | [] => false end) ws_seqs = true.
Proof. vm_compute. reflexivity. Qed.

Lemma ws_seqs_rev_nondigit : forallb (fun p => match p with a :: _ => negb (is_digit a) | [] => false end) (map (@rev ascii) ws_seqs) = true.
Proof. vm_compute. reflexivity. Qed.

Lemma strip_digits l :
  l <> [] -> forallb is_digit l = true -> strip l = l.
Proof.
  intros Hne Hd.
  assert (Hl : lstrip l = l).
  { destruct l as [|c l']; [congruence|].
    simpl in Hd. apply andb_prop in Hd as [Hc _].
    unfold lstrip. cbn [length lstrip_fuel].
    rewrite (first_some_digit ws_seqs c l' ws_seqs_nondigit Hc). reflexivity. }
  unfold strip. rewrite Hl. unfold rstrip.
  destruct (rev l) as [|x r] eqn:Er.
  - apply (f_equal (@rev ascii)) in Er. rewrite rev_involutive in Er. simpl in Er. congruence.
  - assert (Hx : is_digit x = true).
    { assert (Hin : In x l) by (apply in_rev; rewrite Er; left; reflexivity).
      apply List.forallb_forall with (x := x) in Hd; assumption. }
    rewrite <- (length_rev l), Er. cbn [length].
    rewrite (first_some_digit _ x r ws_seqs_rev_nondigit Hx).
    rewrite <- Er. apply rev_involutive.
Qed.

Lemma lower_digits l : forallb is_digit l = true -> map lower_char l = l.
Proof.
  induction l as [|c l IH]; intros Hd; [reflexivity|].
  simpl in Hd. apply andb_prop in Hd as [Hc Hd].
  simpl. rewrite IH by exact Hd. f_equal.
  unfold lower_char. unfold is_digit in Hc.
  apply andb_prop in Hc as [H1 H2]. apply Nat.leb_le in H1, H2.
  destruct (65 <=? nat_of_ascii c)%nat eqn:E; [|reflexivity].
  apply Nat.leb_le in E. lia.
Qed.

Lemma not_digit_word l w :
  forallb is_digit l = true -> forallb is_digit (list_of w) = false -> l <> list_of w.
Proof. intros Hl Hw ->. congruence. Qed.

Lemma digit_facts c :
  is_digit c = true ->
  (PyStr.byte c <? 128)%N = true /\ PyStr.lower_cp (PyStr.byte c) = [PyStr.byte c] /\
  PyStr.utf8_encode_cp (PyStr.byte c) = [c] /\ to_ascii_cp (PyStr.byte c) = Some c /\
  py_isspace c = false.
Proof.
  intros H. destruct c as [[] [] [] [] [] [] [] []]; vm_compute in H;
    try discriminate H; vm_compute; repeat split; reflexivity.
Qed.

Lemma utf8_decode_digits l :
  forallb is_digit l = true -> PyStr.utf8_decode l = Some (map PyStr.byte l).
Proof.
  induction l as [|c l IH]; intros Hd; [reflexivity|].
  simpl in Hd. apply andb_prop in Hd as [Hc Hd].
  destruct (digit_facts c Hc) as (Hb & _).
  cbn [PyStr.utf8_decode]. rewrite Hb, IH by exact Hd. reflexivity.
Qed.

Lemma lower_ascii_digits l :
  forallb is_digit l = true -> PyStr.lower l = l.
Proof.
  intros Hd. unfold PyStr.lower. rewrite utf8_decode_digits by exact Hd.
  induction l as [|c l IH]; [reflexivity|].
  simpl in Hd. apply andb_prop in Hd as [Hc Hd].
  destruct (digit_facts c Hc) as (_ & Hl & He & _).
  cbn [map flat_map]. rewrite Hl. unfold PyStr.utf8_encode in *.
  cbn [app flat_map]. rewrite He, IH by exact Hd. reflexivity.
Qed.

Lemma to_ascii_digits l :
  forallb is_digit l = true -> mapM to_ascii_cp (map PyStr.byte l) = Some l.
Proof.
  induction l as [|c l IH]; intros Hd; [reflexivity|].
  simpl in Hd. apply andb_prop in Hd as [Hc Hd].
  destruct (digit_facts c Hc) as (_ & _ & _ & Ht & _).
  cbn [map mapM]. rewrite Ht, IH by exact Hd. reflexivity.
Qed.

Lemma strip_space_digits l :
  forallb is_digit l = true -> strip_space l = l.
Proof.
  intros Hd. unfold strip_space.
  assert (Hs : forall m, forallb is_digit m = true -> lstrip_space m = m).
  { intros [|c m] Hm; [reflexivity|]. simpl in Hm. apply andb_prop in Hm as [Hc _].
    destruct (digit_facts c Hc) as (_ & _ & _ & _ & Hi).
    cbn [lstrip_space]. rewrite Hi. reflexivity. }
  rewrite (Hs l Hd), Hs; [apply rev_involutive|].
  apply List.forallb_forall. intros x Hx. apply in_rev in Hx.
  apply List.forallb_forall with (x := x) in Hd; assumption.
Qed.

Lemma py_float_digits l :
  forallb is_digit l = true -> py_float l = parse_float l.
Proof.
  intros Hd. unfold py_float.
  rewrite utf8_decode_digits, to_ascii_digits, strip_space_digits by exact Hd.
  reflexivity.
Qed.

(** A present cell holding a plain decimal integer (ASCII digits only,
    no sign, point or space) is truthy exactly when its value is
    positive: "0" and "00" are not, "1", "2" and "007" are. *)
Theorem truthy_digit_string (l : list ascii) :
  l <> [] -> forallb is_digit l = true ->
  truthy (Some (string_of_list_ascii l)) =
    (0 <? fold_left (fun a c => (a * 10 + digit_val c)%N) l 0%N)%N.
Proof.
  intros Hne Hd.
  unfold truthy, norm, list_of. rewrite list_ascii_of_string_of_list_ascii.
  rewrite strip_digits, lower_ascii_digits by assumption.
  destruct (existsb (fun w => bool_decide (l = list_ascii_of_string w)) accepted) eqn:Ea.
  - apply existsb_exists in Ea as (w & Hw & Heq). apply bool_decide_eq_true in Heq.
    subst l. simpl in Hw.
    destruct Hw as [<-|[<-|[<-|[<-|[<-|[<-|[<-|[<-|[]]]]]]]]];
      vm_compute in Hd; try discriminate Hd; reflexivity.
  - destruct l as [|c l']; [congruence|].
    pose proof Hd as Hd'. simpl in Hd'. apply andb_prop in Hd' as [Hc _].
    rewrite py_float_digits by exact Hd. unfold parse_float.
    rewrite (digit_neq_r c "-" Hc eq_refl), (digit_neq_r c "+" Hc eq_refl).
    unfold parse_unsigned. rewrite lower_digits by exact Hd.
    rewrite !(bool_decide_eq_false_2 (_ = list_of _))
      by (apply not_digit_word; [exact Hd|reflexivity]).
    cbn [orb]. unfold parse_decimal. rewrite digits_all by exact Hd.
    cbn [parse_exponent]. simpl. reflexivity.
Qed.

End TruthyProofs.

(* ------------------------------------------------------------------ *)
(** ** Concrete runs *)

Module Examples.
Import Assign Weights Districts Sample AssignProofs WeightProofs DistrictProofs
       NormProofs LoaderProofs.

Definition c0 : site := mkSite (Some (1375 # 100)) (Some (10050 # 100)) None.

Lemma nearest_witness :
  comm_assigned site_coords grid_dist communities3 (indexed hospitals2) = Some sample_res /\
  communities3 !! 0%nat = Some c0 /\
  site_coords c0 = Some (1375 # 100, 10050 # 100) /\
  ((sample_res !! 0%nat = Some (0%nat, None, None) /\
    forall j h, In (j, h) (indexed hospitals2) -> site_coords h = None)
   \/ (exists pre i hosp q d post,
         indexed hospitals2 = pre ++ (i, hosp) :: post /\
         site_coords hosp = Some q /\ grid_dist (1375 # 100, 10050 # 100) q = Some d /\
         sample_res !! 0%nat = Some (0%nat, Some i, Some d) /\
         (forall j h q' d', In (j, h) (indexed hospitals2) -> site_coords h = Some q' ->
            grid_dist (1375 # 100, 10050 # 100) q' = Some d' -> (d <= d')%Q) /\
         (forall j h q' d', In (j, h) pre -> site_coords h = Some q' ->
            grid_dist (1375 # 100, 10050 # 100) q' = Some d' -> (d < d')%Q))).
Proof.
  assert (H1 : comm_assigned site_coords grid_dist communities3 (indexed hospitals2)
               = Some sample_res) by (vm_compute; reflexivity).
  assert (H2 : communities3 !! 0%nat = Some c0) by reflexivity.
  assert (H3 : site_coords c0 = Some (1375 # 100, 10050 # 100)) by reflexivity.
  split; [exact H1|]. split; [exact H2|]. split; [exact H3|].
  exact (nearest_is_first_strict_minimum site_coords grid_dist communities3
           (indexed hospitals2) sample_res 0 c0 (1375 # 100, 10050 # 100) H1 H2 H3).
Defined.

Lemma one_entry_witness :
  (forall p q, is_Some (grid_dist p q)) /\
  is_Some (comm_assigned site_coords grid_dist communities3 (indexed hospitals2)).
Proof.
  assert (Hd : forall p q, is_Some (grid_dist p q)) by (intros p q; simpl; eauto).
  split; [exact Hd|].
  exact (proj1 (one_entry_per_community site_coords grid_dist communities3
                  (indexed hospitals2)) Hd).
Defined.

Lemma no_eligible_witness :
  (forall h, In h hospitals_ineligible -> csmbs_accept h = false) /\
  comm_assigned_csmbs site_coords grid_dist csmbs_accept communities3 hospitals_ineligible
  = Some (map (fun k => (k, None, None)) (seq 0 (length communities3))).
Proof.
  assert (H : forall h, In h hospitals_ineligible -> csmbs_accept h = false).
  { intros h Hin. simpl in Hin.
    destruct Hin as [<-|[<-|[]]]; vm_compute; reflexivity. }
  split; [exact H|].
  exact (no_eligible_all_none site_coords grid_dist csmbs_accept communities3
           hospitals_ineligible H).
Defined.

Lemma weight_conservation_witness :
  comm_assigned_default site_coords grid_dist communities3 hospitals2 = Some sample_res /\
  total_weight (seq 0 (length hospitals2)) (hosp_weights (seq 0 (length hospitals2)) sample_res)
  = assigned_count sample_res.
Proof.
  assert (H : comm_assigned_default site_coords grid_dist communities3 hospitals2
              = Some sample_res) by (vm_compute; reflexivity).
  split; [exact H|].
  exact (weight_conservation site_coords grid_dist communities3 hospitals2 sample_res H).
Defined.

Lemma district_weight_witness :
  Pipeline.default_run site_coords grid_dist rect_contains bkk_feats communities3 hospitals2
  = Some (bkk_out.1.1, bkk_out.1.2, bkk_out.2) /\
  In (Some "A"%string) (map f_name bkk_feats) /\
  exists x, bkk_out.2 !! Some "A"%string = Some x /\
    sum_hospital_weights x
    = sum_list (map (fun ih : nat * site =>
                       length (filter (fun r : entry => r.1.2 = Some ih.1) bkk_out.1.1))
                    (matched_rows site_coords rect_contains bkk_feats (Some "A"%string)
                       (indexed hospitals2))).
Proof.
  assert (H1 : Pipeline.default_run site_coords grid_dist rect_contains bkk_feats
                 communities3 hospitals2 = Some (bkk_out.1.1, bkk_out.1.2, bkk_out.2))
    by (vm_compute; reflexivity).
  assert (H2 : In (Some "A"%string) (map f_name bkk_feats)) by (simpl; left; reflexivity).
  split; [exact H1|]. split; [exact H2|].
  exact (district_weight_sum_first_match site_coords grid_dist rect_contains bkk_feats
           communities3 hospitals2 bkk_out.1.1 bkk_out.1.2 bkk_out.2 (Some "A"%string) H1 H2).
Defined.

(** C3: in the CSMBS pipeline, with a hospitals.csv without a [weight]
    column, the only hospital is eligible, lies in district "D" and is
    assigned the only community (weight 1), yet the weight sum of "D"
    is 0. *)
Lemma csmbs_district_weight_lost :
  exists res w m,
     Pipeline.csmbs_run site_coords grid_dist rect_contains csmbs_accept None single_feats
       one_community one_hospital = Some (res, w, m) /\
     map csmbs_accept one_hospital = [true] /\
     (site_coords <$> one_hospital) = [Some (5, 5)%Q] /\
     first_match rect_contains single_feats (5, 5)%Q = Some (Some "D"%string) /\
     w !! 0%nat = Some 1%nat /\
     m !! Some "D"%string = Some (mkMetrics 1 1 0).
Proof.
  do 3 eexists. split; [vm_compute; reflexivity|]. vm_compute. repeat split; reflexivity.
Qed.

Lemma first_region_witness :
  In (Some "A"%string) (map f_name bkk_feats) /\
  (exists x, district_metrics_run site_coords rect_contains bkk_feats None hospitals2 communities3
               !! Some "A"%string = Some x /\
     num_communities x = length (matched_rows site_coords rect_contains bkk_feats
                                   (Some "A"%string) (indexed communities3))) /\
  (forall pt, (forall f poly, In f bkk_feats -> f_shape f = Some poly ->
                 rect_contains poly pt = false) ->
     first_match rect_contains bkk_feats pt = None) /\
  (forall pre f post poly pt, bkk_feats = pre ++ f :: post ->
     f_shape f = Some poly -> rect_contains poly pt = true ->
     (forall g poly', In g pre -> f_shape g = Some poly' -> rect_contains poly' pt = false) ->
     first_match rect_contains bkk_feats pt = Some (f_name f)).
Proof.
  assert (H : In (Some "A"%string) (map f_name bkk_feats)) by (simpl; left; reflexivity).
  split; [exact H|].
  exact (community_first_containing_region site_coords rect_contains bkk_feats None
           hospitals2 communities3 (Some "A"%string) H).
Defined.

(** C4: a community on the edge shared by the adjacent districts "A"
    and "B" is counted in neither. *)
Lemma shared_edge_counted_nowhere :
  rect_contains (0, 0, 10, 10)%Q (5, 10)%Q = false /\
  rect_contains (10, 0, 20, 10)%Q (5, 10)%Q = false /\
  district_metrics_run site_coords rect_contains adjacent_feats None [] edge_community
    !! Some "A"%string = Some (mkMetrics 0 0 0) /\
  district_metrics_run site_coords rect_contains adjacent_feats None [] edge_community
    !! Some "B"%string = Some (mkMetrics 0 0 0).
Proof.
  vm_compute. repeat split; reflexivity.
Qed.

Lemma shared_bucket_witness :
  dup_feats !! 0%nat = Some (feat "A" (0, 0, 10, 10)%Q) /\
  dup_feats !! 1%nat = Some (feat "A" (10, 0, 20, 10)%Q) /\
  f_name (feat "A" (0, 0, 10, 10)%Q) = f_name (feat "A" (10, 0, 20, 10)%Q) /\
  (let outs := out_features no_centroid_hit dup_feats
                 (district_metrics_run site_coords rect_contains dup_feats None
                    [pt 5 15] [pt 5 5]) in
   outs !! 0%nat = outs !! 1%nat /\
   outs !! 0%nat = Some (mkMetrics
     (length (matched_rows site_coords rect_contains dup_feats (Some "A"%string)
                (indexed [pt 5 15])))
     (length (matched_rows site_coords rect_contains dup_feats (Some "A"%string)
                (indexed [pt 5 5])))
     (sum_list (map (fun ih : nat * site => weight_get None ih.1)
        (matched_rows site_coords rect_contains dup_feats (Some "A"%string)
           (indexed [pt 5 15])))))).
Proof.
  assert (H1 : dup_feats !! 0%nat = Some (feat "A" (0, 0, 10, 10)%Q)) by reflexivity.
  assert (H2 : dup_feats !! 1%nat = Some (feat "A" (10, 0, 20, 10)%Q)) by reflexivity.
  assert (H3 : f_name (feat "A" (0, 0, 10, 10)%Q) = f_name (feat "A" (10, 0, 20, 10)%Q))
    by reflexivity.
  split; [exact H1|]. split; [exact H2|]. split; [exact H3|].
  exact (same_name_shared_bucket site_coords rect_contains no_centroid_hit dup_feats None
           [pt 5 15] [pt 5 5] 0 1 _ _ H1 H2 H3).
Defined.


End Examples.

Module DetectProofs.
Import Detect.

Lemma first_member_some cands keys c :
  first_member cands keys = Some c -> In c cands /\ In c keys.
Proof.
  induction cands as [|c0 cs IH]; simpl; [discriminate|].
  destruct (in_dec string_dec c0 keys) as [Hin|_].
  - intros H; inversion H; subst. auto.
  - intros H. destruct (IH H). auto.
Qed.

Lemma first_member_none cands keys :
  first_member cands keys = None -> forall c, In c cands -> ~ In c keys.
Proof.
  induction cands as [|c0 cs IH]; simpl; [tauto|].
  destruct (in_dec string_dec c0 keys) as [Hin|Hn]; [discriminate|].
  intros H c [<-|Hc]; auto.
Qed.

Lemma first_member_first pre c post keys :
  In c keys -> (forall c', In c' pre -> ~ In c' keys) ->
  first_member (pre ++ c :: post) keys = Some c.
Proof.
  intros Hc. induction pre as [|c0 pre IH]; intros Hpre; simpl.
  - destruct (in_dec string_dec c keys); [reflexivity|contradiction].
  - destruct (in_dec string_dec c0 keys) as [Hin|_].
    + exfalso. exact (Hpre c0 (or_introl eq_refl) Hin).
    + apply IH. intros c' Hc'. apply Hpre. right. exact Hc'.
Qed.

(** [detect_name_field] reads the first feature only: the field it
    returns is a key of that feature's properties, and it returns [None]
    exactly when there is no feature or the first feature has no
    property. *)
Theorem detect_name_field_first_keys (features : list (option (list string))) :
  (forall k, detect_name_field features = Some k ->
     exists f rest, features = f :: rest /\ In k (default [] f)) /\
  (detect_name_field features = None <->
     match features with [] => True | f :: _ => default [] f = [] end).
Proof.
  unfold detect_name_field. destruct features as [|f rest]; cbv zeta.
  - split; [discriminate|tauto].
  - destruct (first_member name_candidates (default [] f)) as [c|] eqn:Hm.
    + apply first_member_some in Hm as [_ Hc]. split.
      * intros k Hk. inversion Hk; subst. eauto.
      * split; [discriminate|]. intros E. rewrite E in Hc. destruct Hc.
    + split.
      * intros k Hk. exists f, rest. split; [reflexivity|].
        destruct (default [] f) as [|k0 ks]; simpl in Hk; [discriminate|].
        inversion Hk; subst. left. reflexivity.
      * destruct (default [] f); simpl; split; intros H; congruence.
Qed.

(** When the first feature has one of the seven candidate keys, both
    [detect_name_field] and the inline detection of the Ratchathewi
    script return the earliest candidate (in the order amp_th, district,
    name, NAME, AMP_T, AMP_THA, DISTRICT) that the feature has. *)
Theorem detect_name_field_priority (f : option (list string)) rest pre c post :
  name_candidates = pre ++ c :: post ->
  In c (default [] f) ->
  (forall c', In c' pre -> ~ In c' (default [] f)) ->
  detect_name_field (f :: rest) = Some c /\ detect_name_field_ratchathewi (f :: rest) = c.
Proof.
  intros Hc Hin Hpre. unfold detect_name_field, detect_name_field_ratchathewi.
  cbv beta iota zeta.
  rewrite Hc, (first_member_first pre c post _ Hin Hpre). split; reflexivity.
Qed.

(** The Ratchathewi detection always returns one of the seven
    candidates: it agrees with [detect_name_field] when that returns a
    candidate, and falls back to "amp_th" when [detect_name_field]
    returns a non-candidate key (the first key) or nothing. *)
Theorem ratchathewi_field_fallback (features : list (option (list string))) :
  In (detect_name_field_ratchathewi features) name_candidates /\
  (forall c, detect_name_field features = Some c -> In c name_candidates ->
     detect_name_field_ratchathewi features = c) /\
  (forall c, detect_name_field features = Some c -> ~ In c name_candidates ->
     detect_name_field_ratchathewi features = "amp_th"%string) /\
  (detect_name_field features = None -> detect_name_field_ratchathewi features = "amp_th"%string).
Proof.
  unfold detect_name_field, detect_name_field_ratchathewi.
  destruct features as [|f rest].
  - split; [left; reflexivity|]. split; [discriminate|]. split; [discriminate|reflexivity].
  - cbv beta iota zeta. destruct (first_member name_candidates (default [] f)) as [c0|] eqn:Hm.
    + apply first_member_some in Hm as [Hc0 _].
      split; [exact Hc0|]. split; [intros c H _; inversion H; reflexivity|].
      split; [intros c H Hn; inversion H; subst; contradiction|discriminate].
    + split; [left; reflexivity|]. split; [|split; [reflexivity|reflexivity]].
      intros c Hh Hc. exfalso.
      destruct (default [] f) as [|k ks] eqn:Ed; simpl in Hh; [discriminate|].
      inversion Hh; subst k. apply (first_member_none _ _ Hm c Hc). left. reflexivity.
Qed.

Section RightsProofs.
Variable lower : string -> string.

Lemma lower_index_snoc cols x k :
  lower_index lower (cols ++ [x]) !! k
  = if string_dec (lower x) k then Some x else lower_index lower cols !! k.
Proof.
  unfold lower_index. rewrite foldl_app. simpl.
  destruct (string_dec (lower x) k) as [<-|Hne].
  - apply lookup_insert_eq.
  - rewrite lookup_insert_ne by exact Hne. reflexivity.
Qed.

Lemma lower_index_some cols k col :
  lower_index lower cols !! k = Some col <->
  exists pre post, cols = pre ++ col :: post /\ lower col = k /\
    forall c', In c' post -> lower c' <> k.
Proof.
  induction cols as [|x cols IH] using rev_ind.
  - unfold lower_index. simpl. rewrite lookup_empty. split; [discriminate|].
    intros (pre & post & E & _). destruct pre; discriminate.
  - rewrite lower_index_snoc. destruct (string_dec (lower x) k) as [Hx|Hx].
    + split.
      * intros H. inversion H; subst. exists cols, []. split; [reflexivity|]. split; [reflexivity|].
        intros c' [].
      * intros (pre & post & E & Hl & Hpost).
        destruct post as [|y post _] using rev_ind.
        -- apply app_inj_tail in E as [_ Ey]. rewrite Ey. reflexivity.
        -- exfalso. rewrite app_comm_cons, app_assoc in E.
           apply app_inj_tail in E as [_ Ey]. subst y. apply (Hpost x); [|exact Hx].
           apply in_or_app. right. left. reflexivity.
    + rewrite IH. split.
      * intros (pre & post & E & Hl & Hpost). exists pre, (post ++ [x]).
        rewrite E, <- app_assoc. split; [reflexivity|]. split; [exact Hl|].
        intros c' Hc'. apply in_app_or in Hc' as [Hc'|[<-|[]]]; auto.
      * intros (pre & post & E & Hl & Hpost).
        destruct post as [|y post _] using rev_ind.
        -- apply app_inj_tail in E as [_ Ey]. subst col. contradiction.
        -- rewrite app_comm_cons, app_assoc in E. apply app_inj_tail in E as [E Ey]. subst y.
           exists pre, post. split; [exact E|]. split; [exact Hl|].
           intros c' Hc'. apply Hpost. apply in_or_app. left. exact Hc'.
Qed.

Lemma lower_index_none cols k :
  lower_index lower cols !! k = None <-> forall col, In col cols -> lower col <> k.
Proof.
  induction cols as [|x cols IH] using rev_ind.
  - unfold lower_index. simpl. rewrite lookup_empty. split; [intros _ c []|reflexivity].
  - rewrite lower_index_snoc. destruct (string_dec (lower x) k) as [Hx|Hx].
    + split; [discriminate|]. intros H. exfalso. apply (H x); [|exact Hx].
      apply in_or_app. right. left. reflexivity.
    + rewrite IH. split.
      * intros H col Hc. apply in_app_or in Hc as [Hc|[<-|[]]]; auto.
      * intros H col Hc. apply H. apply in_or_app. left. exact Hc.
Qed.

Lemma first_lower_some lc cands col :
  first_lower lower lc cands = Some col -> exists c, In c cands /\ lc !! lower c = Some col.
Proof.
  induction cands as [|c cs IH]; simpl; [discriminate|].
  destruct (lc !! lower c) as [x|] eqn:E.
  - intros H. inversion H; subst. eauto.
  - intros H. destruct (IH H) as (c' & Hc' & Hl). eauto.
Qed.

Lemma first_lower_none lc cands :
  first_lower lower lc cands = None <-> forall c, In c cands -> lc !! lower c = None.
Proof.
  induction cands as [|c cs IH]; simpl.
  - split; [tauto|reflexivity].
  - destruct (lc !! lower c) as [x|] eqn:E.
    + split; [discriminate|]. intros H. rewrite (H c (or_introl eq_refl)) in E. discriminate.
    + rewrite IH. split.
      * intros H c' [<-|Hc']; auto.
      * intros H c' Hc'. apply H. right. exact Hc'.
Qed.

Lemma first_lower_first lc pre c post col :
  (forall c', In c' pre -> lc !! lower c' = None) -> lc !! lower c = Some col ->
  first_lower lower lc (pre ++ c :: post) = Some col.
Proof.
  intros Hpre Hc. induction pre as [|c0 pre IH]; simpl.
  - rewrite Hc. reflexivity.
  - rewrite (Hpre c0 (or_introl eq_refl)). apply IH.
    intros c' Hc'. apply Hpre. right. exact Hc'.
Qed.

(** [detect_rights_column] never invents a column: what it returns is a
    column of the frame whose lower-cased name equals that of a
    candidate; it returns [None] exactly when no column matches any
    candidate case-insensitively. *)
Theorem detect_rights_column_found (cols candidates : list string) :
  (forall c, detect_rights_column lower cols candidates = Some c ->
     In c cols /\ exists cand, In cand candidates /\ lower c = lower cand) /\
  (detect_rights_column lower cols candidates = None <->
     forall cand col, In cand candidates -> In col cols -> lower col <> lower cand).
Proof.
  unfold detect_rights_column.
  destruct (first_member candidates cols) as [c0|] eqn:Hm.
  - apply first_member_some in Hm as [Hc Hk]. split.
    + intros c H. inversion H; subst. eauto.
    + split; [discriminate|]. intros H. exfalso. exact (H c0 c0 Hc Hk eq_refl).
  - split.
    + intros c H. apply first_lower_some in H as (cand & Hcand & Hl).
      apply lower_index_some in Hl as (pre & post & -> & Hlow & _).
      split; [apply in_or_app; right; left; reflexivity|]. eauto.
    + rewrite first_lower_none. split.
      * intros H cand col Hcand Hcol. apply lower_index_none with (cols := cols); auto.
      * intros H cand Hcand. apply lower_index_none. intros col Hcol. auto.
Qed.

(** [detect_rights_column] prefers an exact match: the earliest candidate
    present as a column is returned. Without any exact match, the
    earliest candidate matching some column case-insensitively wins, and
    among the columns with that lower-cased name the last one is
    returned. *)
Theorem detect_rights_column_priority (cols candidates : list string) :
  (forall pre c post, candidates = pre ++ c :: post -> In c cols ->
     (forall c', In c' pre -> ~ In c' cols) ->
     detect_rights_column lower cols candidates = Some c) /\
  (forall pre c post colpre col colpost,
     (forall c', In c' candidates -> ~ In c' cols) ->
     candidates = pre ++ c :: post ->
     (forall c' col', In c' pre -> In col' cols -> lower col' <> lower c') ->
     cols = colpre ++ col :: colpost -> lower col = lower c ->
     (forall col', In col' colpost -> lower col' <> lower c) ->
     detect_rights_column lower cols candidates = Some col).
Proof.
  split.
  - intros pre c post -> Hc Hpre. unfold detect_rights_column.
    rewrite (first_member_first pre c post cols Hc Hpre). reflexivity.
  - intros pre c post colpre col colpost Hnone Hcand Hpre Hcols Hl Hpost.
    unfold detect_rights_column.
    destruct (first_member candidates cols) as [c0|] eqn:Hm.
    { apply first_member_some in Hm as [Hc0 Hk]. exfalso. exact (Hnone c0 Hc0 Hk). }
    rewrite Hcand. apply first_lower_first.
    + intros c' Hc'. apply lower_index_none. intros col' Hcol'. apply Hpre; assumption.
    + apply lower_index_some. exists colpre, colpost. auto.
Qed.
End RightsProofs.

End DetectProofs.

Module HtmlProofs.
Import PyFloat Html.

Lemma replace1_app c r l1 l2 : replace1 c r (l1 ++ l2) = replace1 c r l1 ++ replace1 c r l2.
Proof. unfold replace1. apply flat_map_app. Qed.

Lemma escape_app l1 l2 : escape (l1 ++ l2) = escape l1 ++ escape l2.
Proof. unfold escape. rewrite !replace1_app. reflexivity. Qed.

Lemma escape_cons a l : escape (a :: l) = escape [a] ++ escape l.
Proof. exact (escape_app [a] l). Qed.

Lemma escape_single_cases a :
  (a = "&"%char /\ escape [a] = list_of "&amp;") \/
  (a = "<"%char /\ escape [a] = list_of "&lt;") \/
  (a = ">"%char /\ escape [a] = list_of "&gt;") \/
  (a = quote_char /\ escape [a] = list_of "&quot;") \/
  (a = "'"%char /\ escape [a] = list_of "&#x27;") \/
  (a <> "&"%char /\ a <> "<"%char /\ a <> ">"%char /\ a <> quote_char /\ a <> "'"%char /\
   escape [a] = [a]).
Proof.
  destruct (ascii_dec a "&") as [->|H1]; [left; split; reflexivity|].
  destruct (ascii_dec a "<") as [->|H2]; [right; left; split; reflexivity|].
  destruct (ascii_dec a ">") as [->|H3]; [right; right; left; split; reflexivity|].
  destruct (ascii_dec a quote_char) as [->|H4]; [do 3 right; left; split; reflexivity|].
  destruct (ascii_dec a "'") as [->|H5]; [do 4 right; left; split; reflexivity|].
  do 5 right. repeat split; try assumption.
  unfold escape, replace1. simpl.
  destruct (ascii_dec a "&"); [contradiction|]. simpl.
  destruct (ascii_dec a "<"); [contradiction|]. simpl.
  destruct (ascii_dec a ">"); [contradiction|]. simpl.
  destruct (ascii_dec a quote_char); [contradiction|]. simpl.
  destruct (ascii_dec a "'"); [contradiction|]. reflexivity.
Qed.

(** The output of [html.escape] (used for every hospital and community
    name, district value and title put in a popup or tooltip) contains
    no '<', '>', double quote or single quote character. *)
Theorem escape_no_markup (s : list ascii) :
  forall x, In x (escape s) ->
    x <> "<"%char /\ x <> ">"%char /\ x <> quote_char /\ x <> "'"%char.
Proof.
  induction s as [|a s IH]; [intros x []|].
  intros x Hx. rewrite escape_cons in Hx. apply in_app_or in Hx as [Hx|Hx]; [|auto].
  destruct (escape_single_cases a) as
    [(_ & E)|[(_ & E)|[(_ & E)|[(_ & E)|[(_ & E)|(H1 & H2 & H3 & H4 & H5 & E)]]]]];
    rewrite E in Hx.
  1-5: simpl in Hx; unfold quote_char;
       repeat (destruct Hx as [<-|Hx]; [repeat split; discriminate|]); destruct Hx.
  destruct Hx as [<-|[]]. auto.
Qed.

Lemma escape_chunk a b l l' :
  escape [a] ++ l = escape [b] ++ l' -> a = b /\ l = l'.
Proof.
  intros H.
  destruct (escape_single_cases a) as
    [(-> & Ea)|[(-> & Ea)|[(-> & Ea)|[(-> & Ea)|[(-> & Ea)|(A1 & A2 & A3 & A4 & A5 & Ea)]]]]];
  destruct (escape_single_cases b) as
    [(-> & Eb)|[(-> & Eb)|[(-> & Eb)|[(-> & Eb)|[(-> & Eb)|(B1 & B2 & B3 & B4 & B5 & Eb)]]]]];
  rewrite Ea in H; try rewrite Eb in H;
  first
    [ apply app_inv_head in H; split; [reflexivity|exact H]
    | cbn in H; discriminate H
    | cbn in H; injection H as Hab Hl; subst; split; [reflexivity|reflexivity]
    | cbn in H; injection H as Hab _; subst; exfalso; tauto ].
Qed.

(** [html.escape] is injective: two different texts never produce the
    same escaped text. *)
Theorem escape_injective (s1 s2 : list ascii) : escape s1 = escape s2 -> s1 = s2.
Proof.
  revert s2. induction s1 as [|a s1 IH]; intros [|b s2] H.
  - reflexivity.
  - exfalso. rewrite escape_cons in H.
    destruct (escape_single_cases b) as
      [(_ & E)|[(_ & E)|[(_ & E)|[(_ & E)|[(_ & E)|(_ & _ & _ & _ & _ & E)]]]]];
      rewrite E in H; discriminate.
  - exfalso. rewrite escape_cons in H.
    destruct (escape_single_cases a) as
      [(_ & E)|[(_ & E)|[(_ & E)|[(_ & E)|[(_ & E)|(_ & _ & _ & _ & _ & E)]]]]];
      rewrite E in H; discriminate.
  - rewrite (escape_cons a s1), (escape_cons b s2) in H. apply escape_chunk in H as [-> H]. f_equal. auto.
Qed.

End HtmlProofs.

Module PipelineProofs.
Import Assign Weights Districts Writeback Layers AssignProofs WeightProofs DistrictProofs
       NormProofs.

(** *** The weight column *)

Lemma weight_init_none labels l : ~ In l labels -> weight_init labels !! l = None.
Proof.
  unfold weight_init. induction labels as [|a ls IH]; intros Hn; [apply lookup_empty|].
  cbn [map]. rewrite list_to_map_cons.
  rewrite lookup_insert_ne by (intros ->; apply Hn; left; reflexivity).
  apply IH. intros H. apply Hn. right. exact H.
Qed.

Lemma fold_add_entry_dom res w i :
  is_Some (foldl add_entry w res !! i) <-> is_Some (w !! i).
Proof.
  revert w. induction res as [|r res IH]; intros w; simpl; [reflexivity|].
  rewrite IH. destruct r as [[c [h|]] d]; simpl; [|reflexivity].
  unfold bump. destruct (w !! h) as [x|] eqn:Hx; [|reflexivity].
  destruct (decide (h = i)) as [->|Hne].
  - rewrite lookup_insert_eq, Hx. split; eauto.
  - rewrite lookup_insert_ne by exact Hne. reflexivity.
Qed.

Lemma hosp_weights_in labels res i :
  In i labels ->
  hosp_weights labels res !! i = Some (length (filter (fun r : entry => r.1.2 = Some i) res)).
Proof.
  intros Hi. pose proof (hosp_weights_count labels res i Hi) as Hc. unfold weight_of in Hc.
  assert (Hs : is_Some (hosp_weights labels res !! i)).
  { unfold hosp_weights. apply fold_add_entry_dom. rewrite weight_init_lookup by exact Hi. eauto. }
  destruct Hs as [x Hx]. rewrite Hx in Hc |- *. simpl in Hc. rewrite Hc. reflexivity.
Qed.

Lemma hosp_weights_notin labels res i :
  ~ In i labels -> hosp_weights labels res !! i = None.
Proof.
  intros Hi. destruct (hosp_weights labels res !! i) as [x|] eqn:Hx; [|reflexivity].
  exfalso. assert (Hs : is_Some (weight_init labels !! i)).
  { apply (fold_add_entry_dom res). unfold hosp_weights in Hx. rewrite Hx. eauto. }
  rewrite weight_init_none in Hs by exact Hi. destruct Hs as [? Hs]. discriminate.
Qed.

Lemma indexed_in {A} (l : list A) i x : In (i, x) (indexed l) -> l !! i = Some x.
Proof.
  intros Hin. apply list_elem_of_In, list_elem_of_lookup in Hin as [k Hk].
  rewrite indexed_lookup in Hk. destruct (l !! k) as [y|] eqn:Hy; simpl in Hk; [|discriminate].
  inversion Hk; subst. exact Hy.
Qed.

Lemma in_indexed {A} (l : list A) i x : l !! i = Some x -> In (i, x) (indexed l).
Proof.
  intros Hl. apply list_elem_of_In, list_elem_of_lookup. exists i.
  rewrite indexed_lookup, Hl. reflexivity.
Qed.

Lemma indexed_forall {A} (l : list A) : List.Forall (fun ix => l !! ix.1 = Some ix.2) (indexed l).
Proof. apply List.Forall_forall. intros [i x] Hin. exact (indexed_in _ _ _ Hin). Qed.

Lemma filter_indexed_length {A} (P : A -> Prop) `{forall x, Decision (P x)} (l : list A) :
  length (filter (fun ix : nat * A => P ix.2) (indexed l)) = length (filter P l).
Proof.
  unfold indexed. generalize 0%nat. induction l as [|x l IH]; intros s; [reflexivity|].
  cbn [length seq zip]. rewrite !filter_cons. simpl.
  destruct (decide (P x)); simpl; rewrite IH; reflexivity.
Qed.

Section Chosen.
Context {Row Pt : Type}.
Variable coords : Row -> option Pt.
Variable geodesic : Pt -> Pt -> option Q.

(** what one entry of [comm_assigned] carries *)
Lemma assign_one_shape hs k comm r :
  assign_one coords geodesic hs k comm = Some r ->
  (r.1.2 = None -> r.2 = None) /\
  (forall i, r.1.2 = Some i -> is_Some (coords comm) /\
     exists h q, In (i, h) hs /\ coords h = Some q).
Proof.
  unfold assign_one. destruct (coords comm) as [p|] eqn:Hc.
  - destruct (scan coords geodesic p hs None None) as [[m n]|] eqn:Hs; [|discriminate].
    intros H; inversion H; subst r; clear H. simpl.
    apply scan_sound in Hs.
    destruct Hs as [(-> & -> & _)|(pre & i' & hosp & q & d & post & -> & Hq & _ & -> & -> & _)].
    + split; [intros _; reflexivity|intros i Hi; discriminate].
    + split; [intros Hn; discriminate|]. intros i Hi. inversion Hi; subst i'.
      split; [eauto|]. exists hosp, q. split; [|exact Hq].
      apply in_or_app. right. left. reflexivity.
  - intros H; inversion H; subst r. simpl.
    split; [intros _; reflexivity|intros i Hi; discriminate].
Qed.

Lemma comm_assigned_entries communities hs res :
  comm_assigned coords geodesic communities hs = Some res ->
  List.Forall (fun r : entry => exists comm, communities !! r.1.1 = Some comm /\
    (r.1.2 = None -> r.2 = None) /\
    (forall i, r.1.2 = Some i -> is_Some (coords comm) /\
       exists h q, In (i, h) hs /\ coords h = Some q)) res.
Proof.
  intros Hrun. apply comm_assigned_spec in Hrun.
  pose proof (indexed_forall communities) as Hl.
  induction Hrun as [|ic r l rs Ha Hf IH]; constructor.
  - inversion Hl as [|? ? Hic _]; subst. exists ic.2.
    rewrite (assign_one_idx coords geodesic hs ic.1 ic.2 r Ha).
    split; [exact Hic|]. exact (assign_one_shape _ _ _ _ Ha).
  - apply IH. inversion Hl; assumption.
Qed.
End Chosen.

Lemma csmbs_hospitals_in {Row} (csmbs_accept : Row -> bool) hospitals i h :
  In (i, h) (csmbs_hospitals csmbs_accept hospitals)
  <-> hospitals !! i = Some h /\ csmbs_accept h = true.
Proof.
  unfold csmbs_hospitals. rewrite <- list_elem_of_In, list_elem_of_filter, list_elem_of_In.
  simpl. split.
  - intros [Ha Hin]. split; [exact (indexed_in _ _ _ Hin)|exact Ha].
  - intros [Hh Ha]. split; [exact Ha|exact (in_indexed _ _ _ Hh)].
Qed.

(** *** District buckets *)

Lemma sum_list_map_add {A} (f g : A -> nat) l :
  sum_list (map (fun x => f x + g x) l) = (sum_list (map f l) + sum_list (map g l))%nat.
Proof. induction l as [|a l IH]; simpl; lia. Qed.

Lemma sum_indicator_notin {K} (ns : list K) (k : K) (v : nat)
    (D : forall n : K, Decision (Some k = Some n)) :
  ~ In k ns -> sum_list (map (fun n => if @decide _ (D n) then v else 0%nat) ns) = 0%nat.
Proof.
  induction ns as [|x ns IH]; intros Hn; [reflexivity|]. cbn [map sum_list].
  destruct (D x) as [E|Hne]; [inversion E; subst; exfalso; apply Hn; left; reflexivity|].
  rewrite IH; [reflexivity|]. intros H. apply Hn. right. exact H.
Qed.

Lemma sum_indicator {K} (ns : list K) (k : K) (v : nat)
    (D : forall n : K, Decision (Some k = Some n)) :
  NoDup ns -> In k ns ->
  sum_list (map (fun n => if @decide _ (D n) then v else 0%nat) ns) = v.
Proof.
  intros Hnd. induction Hnd as [|x ns Hx Hnd IH]; intros Hin; [destruct Hin|]. cbn [map sum_list].
  destruct (D x) as [E|Hne].
  - inversion E; subst x. rewrite sum_indicator_notin; [simpl; lia|].
    rewrite <- list_elem_of_In. exact Hx.
  - destruct Hin as [->|Hin]; [congruence|]. rewrite IH by exact Hin. reflexivity.
Qed.

Lemma sum_indicator_none {K} (ns : list K) (v : nat)
    (D : forall n : K, Decision (@None K = Some n)) :
  sum_list (map (fun n => if @decide _ (D n) then v else 0%nat) ns) = 0%nat.
Proof.
  induction ns as [|x ns IH]; [reflexivity|]. cbn [map sum_list].
  destruct (D x) as [E|Hne]; [discriminate|]. exact IH.
Qed.

(** Rows split into disjoint buckets by [b]: summing a quantity over the
    buckets of [ns] is summing it over the rows that fall in a bucket. *)
Lemma sum_buckets {A K} `{EqDecision K} (b : A -> option K) (g : A -> nat) (ns : list K) (l : list A) :
  NoDup ns -> (forall a k, b a = Some k -> In k ns) ->
  sum_list (map (fun n => sum_list (map g (filter (fun a => b a = Some n) l))) ns)
  = sum_list (map g (filter (fun a => is_Some (b a)) l)).
Proof.
  intros Hnd Hb. induction l as [|a l IH].
  - clear Hnd Hb. induction ns as [|n ns IHn]; [reflexivity|]. exact IHn.
  - transitivity (sum_list (map (fun n => (if decide (b a = Some n) then g a else 0%nat)
                                        + sum_list (map g (filter (fun a => b a = Some n) l))) ns)).
    { f_equal. apply map_ext. intros n. rewrite filter_cons.
      destruct (decide (b a = Some n)); simpl; lia. }
    rewrite sum_list_map_add, IH, filter_cons.
    destruct (b a) as [k|] eqn:Hba.
    + rewrite decide_True by eauto. simpl.
      rewrite (sum_indicator ns k (g a) _ Hnd (Hb a k Hba)). reflexivity.
    + rewrite decide_False by (intros [? ?]; discriminate).
      rewrite sum_indicator_none. reflexivity.
Qed.

Lemma length_as_sum {A} (l : list A) : length l = sum_list (map (fun _ => 1%nat) l).
Proof. induction l as [|a l IH]; simpl; lia. Qed.

Section Buckets.
Context {Row Pt Poly : Type}.
Variable coords : Row -> option Pt.
Variable geodesic : Pt -> Pt -> option Q.
Variable contains : Poly -> Pt -> bool.
Variable centroid_hit : Poly -> Poly -> bool.

Local Abbreviation feature := (@feature Poly).

Lemma matched_rows_bucket (feats : list feature) n (l : list (nat * Row)) :
  matched_rows coords contains feats n l
  = filter (fun ir : nat * Row => (coords ir.2 ≫= first_match contains feats) = Some n) l.
Proof.
  unfold matched_rows. apply list_filter_iff. intros [i r]. unfold matched_to. simpl.
  destruct (coords r) as [pt|]; simpl.
  - rewrite bool_decide_eq_true. reflexivity.
  - split; discriminate.
Qed.

Lemma in_names_remove_dups (feats : list feature) n :
  In n (remove_dups (map f_name feats)) <-> In n (map f_name feats).
Proof. rewrite <- !list_elem_of_In. apply elem_of_remove_dups. Qed.

Lemma bucket_in_names (feats : list feature) (ir : nat * Row) k :
  (coords ir.2 ≫= first_match contains feats) = Some k -> In k (remove_dups (map f_name feats)).
Proof.
  intros H. apply in_names_remove_dups. destruct (coords ir.2) as [pt|]; simpl in H; [|discriminate].
  exact (first_match_in contains feats pt k H).
Qed.

Lemma district_metrics_dom (feats : list feature) wcol hospitals communities n x :
  district_metrics_run coords contains feats wcol hospitals communities !! n = Some x ->
  In n (map f_name feats).
Proof.
  intros H. destruct (in_dec (decide_rel eq) n (map f_name feats)) as [Hin|Hn]; [exact Hin|exfalso].
  assert (Hnm : forall r, matched_to coords contains feats n r = false).
  { intros r. unfold matched_to. destruct (coords r) as [pt|]; [|reflexivity].
    apply bool_decide_eq_false. intros Hm. apply Hn. exact (first_match_in contains feats pt n Hm). }
  assert (Hc : forall l m0, foldl (add_community coords contains feats) m0 l !! n = m0 !! n).
  { induction l as [|ic l IH]; intros m0; simpl; [reflexivity|].
    rewrite IH, add_community_lookup, Hnm. reflexivity. }
  assert (Hh : forall l m0, foldl (add_hospital coords contains feats wcol) m0 l !! n = m0 !! n).
  { induction l as [|ih l IH]; intros m0; simpl; [reflexivity|].
    rewrite IH, add_hospital_lookup, Hnm. reflexivity. }
  unfold district_metrics_run in H. rewrite Hc, Hh, (proj2 (init_metrics_lookup feats n) Hn) in H.
  discriminate.
Qed.

(** The district buckets partition the located rows: summed over the
    distinct district names, the hospital counts give the number of
    hospitals whose point parses and lies in some polygon, the
    community counts the same number for communities, and the weight
    sums the weights of those hospitals.  No row is counted twice, and a
    row outside every polygon, or without coordinates, is counted
    nowhere. *)
Theorem district_totals (feats : list feature) wcol (hospitals communities : list Row) :
  sum_list (map (fun n => num_hospitals
                  (default zero_metrics
                     (district_metrics_run coords contains feats wcol hospitals communities !! n)))
                (remove_dups (map f_name feats)))
  = length (filter (fun h => is_Some (coords h ≫= first_match contains feats)) hospitals) /\
  sum_list (map (fun n => num_communities
                  (default zero_metrics
                     (district_metrics_run coords contains feats wcol hospitals communities !! n)))
                (remove_dups (map f_name feats)))
  = length (filter (fun c => is_Some (coords c ≫= first_match contains feats)) communities) /\
  sum_list (map (fun n => sum_hospital_weights
                  (default zero_metrics
                     (district_metrics_run coords contains feats wcol hospitals communities !! n)))
                (remove_dups (map f_name feats)))
  = sum_list (map (fun ih : nat * Row => weight_get wcol ih.1)
                  (filter (fun ih : nat * Row => is_Some (coords ih.2 ≫= first_match contains feats))
                          (indexed hospitals))).
Proof.
  assert (Hlk : forall n, In n (remove_dups (map f_name feats)) ->
            district_metrics_run coords contains feats wcol hospitals communities !! n
            = Some (mkMetrics (length (matched_rows coords contains feats n (indexed hospitals)))
                     (length (matched_rows coords contains feats n (indexed communities)))
                     (sum_list (map (fun ih : nat * Row => weight_get wcol ih.1)
                                    (matched_rows coords contains feats n (indexed hospitals)))))).
  { intros n Hn. apply district_metrics_lookup. apply in_names_remove_dups. exact Hn. }
  pose proof (NoDup_remove_dups (map f_name feats)) as Hnd.
  split; [|split].
  - rewrite (map_ext_in _ (fun n => sum_list (map (fun _ => 1%nat)
               (filter (fun ir : nat * Row => (coords ir.2 ≫= first_match contains feats) = Some n)
                       (indexed hospitals))))).
    + rewrite (sum_buckets (fun ir : nat * Row => coords ir.2 ≫= first_match contains feats)
                 (fun _ => 1%nat) _ _ Hnd (bucket_in_names feats)).
      rewrite <- length_as_sum.
      exact (filter_indexed_length (fun h => is_Some (coords h ≫= first_match contains feats)) hospitals).
    + intros n Hn. rewrite (Hlk n Hn). simpl. rewrite matched_rows_bucket. apply length_as_sum.
  - rewrite (map_ext_in _ (fun n => sum_list (map (fun _ => 1%nat)
               (filter (fun ir : nat * Row => (coords ir.2 ≫= first_match contains feats) = Some n)
                       (indexed communities))))).
    + rewrite (sum_buckets (fun ir : nat * Row => coords ir.2 ≫= first_match contains feats)
                 (fun _ => 1%nat) _ _ Hnd (bucket_in_names feats)).
      rewrite <- length_as_sum.
      exact (filter_indexed_length (fun c => is_Some (coords c ≫= first_match contains feats)) communities).
    + intros n Hn. rewrite (Hlk n Hn). simpl. rewrite matched_rows_bucket. apply length_as_sum.
  - rewrite (map_ext_in _ (fun n => sum_list (map (fun ih : nat * Row => weight_get wcol ih.1)
               (filter (fun ir : nat * Row => (coords ir.2 ≫= first_match contains feats) = Some n)
                       (indexed hospitals))))).
    + exact (sum_buckets (fun ir : nat * Row => coords ir.2 ≫= first_match contains feats)
               (fun ih : nat * Row => weight_get wcol ih.1) _ _ Hnd (bucket_in_names feats)).
    + intros n Hn. rewrite (Hlk n Hn). simpl. rewrite matched_rows_bucket. reflexivity.
Qed.

End Buckets.

Lemma foldr_max_le (l1 l2 : list nat) :
  (forall x, In x l1 -> In x l2) -> (foldr Nat.max 0 l1 <= foldr Nat.max 0 l2)%nat.
Proof.
  intros Hs. destruct l1 as [|a l1]; [simpl; lia|].
  destruct (foldr_max_attained (a :: l1)) as [k Hk]; [discriminate|].
  apply foldr_max_ge. apply Hs. apply list_elem_of_In, list_elem_of_lookup. exists k. exact Hk.
Qed.

Lemma global_max_same (l1 l2 : list nat) :
  (forall x, In x l1 <-> In x l2) -> global_max l1 = global_max l2.
Proof.
  intros Hs. destruct l1 as [|a l1], l2 as [|b l2]; try reflexivity.
  - exfalso. apply (proj2 (Hs b)). left. reflexivity.
  - exfalso. apply (proj1 (Hs a)). left. reflexivity.
  - change (foldr Nat.max 0 (a :: l1) = foldr Nat.max 0 (b :: l2)).
    apply Nat.le_antisymm; apply foldr_max_le; intros x; apply Hs.
Qed.

Lemma foldr_max_zeros {A} (l : list A) : foldr Nat.max 0 (map (fun _ => 0%nat) l) = 0%nat.
Proof. induction l as [|a l IH]; simpl; [reflexivity|]. rewrite IH. reflexivity. Qed.

Lemma omap_length_forall2 {A B C} (R : A -> B -> Prop) (Q' : A -> Prop) (f : B -> option C)
    (P : A -> Prop) `{forall a, Decision (P a)} la lb :
  Forall2 R la lb -> List.Forall Q' la ->
  (forall a b, Q' a -> R a b -> (is_Some (f b) <-> P a)) ->
  length (omap f lb) = length (filter P la).
Proof.
  intros Hf Hq HR. induction Hf as [|a b la lb Hab Hf IH]; [reflexivity|].
  inversion Hq as [|? ? Ha Hq']; subst.
  specialize (HR a b Ha Hab). rewrite filter_cons.
  change (omap f (b :: lb)) with (match f b with Some c => c :: omap f lb | None => omap f lb end).
  destruct (f b) as [c|] eqn:Hfb; destruct (decide (P a)) as [Hp|Hp]; cbn [length].
  - rewrite IH by exact Hq'. reflexivity.
  - exfalso. apply Hp, HR. eauto.
  - exfalso. apply HR in Hp. destruct Hp as [? Hp]. discriminate.
  - apply IH. exact Hq'.
Qed.

Section Runs.
Context {Row Pt Poly : Type}.
Variable coords : Row -> option Pt.
Variable geodesic : Pt -> Pt -> option Q.
Variable contains : Poly -> Pt -> bool.
Variable centroid_hit : Poly -> Poly -> bool.

Local Abbreviation feature := (@feature Poly).

(** In the default pipeline the [weight] column has a cell for every
    hospital label and for no other label, holding the number of
    entries naming that hospital; a hospital whose coordinates do not
    parse is never chosen and keeps weight 0. *)
Theorem default_weight_column (feats : list feature) communities hospitals res w m :
  Pipeline.default_run coords geodesic contains feats communities hospitals = Some (res, w, m) ->
  (forall i, (i < length hospitals)%nat ->
     w !! i = Some (length (filter (fun r : entry => r.1.2 = Some i) res))) /\
  (forall i, (length hospitals <= i)%nat -> w !! i = None) /\
  (forall i h, hospitals !! i = Some h -> coords h = None -> w !! i = Some 0%nat).
Proof.
  unfold Pipeline.default_run. intros Hrun.
  destruct (comm_assigned_default coords geodesic communities hospitals) as [res0|] eqn:Hc;
    [|discriminate].
  inversion Hrun; subst res w m; clear Hrun.
  split; [|split].
  - intros i Hi. apply hosp_weights_in. apply in_seq. lia.
  - intros i Hi. apply hosp_weights_notin. rewrite in_seq. lia.
  - intros i h Hh Hn. rewrite hosp_weights_in.
    + f_equal. unfold comm_assigned_default in Hc. apply comm_assigned_entries in Hc.
      induction Hc as [|r rs Hr Hrs IH]; [reflexivity|].
      rewrite filter_cons. destruct (decide (r.1.2 = Some i)) as [Hi|Hi]; [exfalso|exact IH].
      destruct Hr as (comm & _ & _ & Hch). destruct (Hch i Hi) as (_ & h' & q & Hin & Hq).
      apply indexed_in in Hin. rewrite Hh in Hin. inversion Hin; subst h'. congruence.
    + apply in_seq. apply lookup_lt_Some in Hh. lia.
Qed.

(** The CSMBS assignment only ever names a hospital that exists, passed
    the eligibility test and has parseable coordinates. *)
Theorem csmbs_choice_eligible (csmbs_accept : Row -> bool) communities hospitals res :
  comm_assigned_csmbs coords geodesic csmbs_accept communities hospitals = Some res ->
  forall r i, In r res -> r.1.2 = Some i ->
  exists h q, hospitals !! i = Some h /\ csmbs_accept h = true /\ coords h = Some q.
Proof.
  unfold comm_assigned_csmbs. intros Hrun r i Hr Hi.
  apply comm_assigned_entries in Hrun. rewrite List.Forall_forall in Hrun.
  destruct (Hrun r Hr) as (comm & _ & _ & Hch).
  destruct (Hch i Hi) as (_ & h & q & Hin & Hq).
  apply csmbs_hospitals_in in Hin as [Hh Ha]. eauto.
Qed.

(** In the CSMBS pipeline the [weight] column of the CSMBS copy has a
    cell exactly for the eligible hospitals, holding the number of
    entries naming that hospital; ineligible and unknown labels have
    none. *)
Theorem csmbs_weight_column (csmbs_accept : Row -> bool) (hosp_wcol : option (gmap nat nat))
    (feats : list feature) communities hospitals res w m :
  Pipeline.csmbs_run coords geodesic contains csmbs_accept hosp_wcol feats communities hospitals
  = Some (res, w, m) ->
  forall i, w !! i = match hospitals !! i with
                     | Some h => if csmbs_accept h
                                 then Some (length (filter (fun r : entry => r.1.2 = Some i) res))
                                 else None
                     | None => None
                     end.
Proof.
  unfold Pipeline.csmbs_run. intros Hrun i.
  destruct (comm_assigned_csmbs coords geodesic csmbs_accept communities hospitals) as [res0|];
    [|discriminate].
  inversion Hrun; subst res w m; clear Hrun.
  destruct (hospitals !! i) as [h|] eqn:Hh; [destruct (csmbs_accept h) eqn:Ha|].
  - apply hosp_weights_in. apply in_map_iff. exists (i, h). split; [reflexivity|].
    apply csmbs_hospitals_in. auto.
  - apply hosp_weights_notin. intros Hin. apply in_map_iff in Hin as [[j h'] [Hj Hin]].
    simpl in Hj; subst j. apply csmbs_hospitals_in in Hin as [Hh' Ha'].
    rewrite Hh in Hh'. inversion Hh'; subst h'. congruence.
  - apply hosp_weights_notin. intros Hin. apply in_map_iff in Hin as [[j h'] [Hj Hin]].
    simpl in Hj; subst j. apply csmbs_hospitals_in in Hin as [Hh' _]. congruence.
Qed.

(** The centroid fallback of [out_features] never fires on the metrics
    the script computes: every feature name has a bucket, so the
    counters written are the plain [district_metrics.get(name)] of the
    other scripts. *)
Theorem out_features_no_fallback (feats : list feature) wcol hospitals communities :
  out_features centroid_hit feats (district_metrics_run coords contains feats wcol hospitals communities)
  = metrics_get feats (district_metrics_run coords contains feats wcol hospitals communities).
Proof.
  unfold out_features, metrics_get. apply map_ext_in. intros f Hf. unfold injected.
  rewrite (district_metrics_lookup coords contains _ _ _ _ _ (in_map f_name _ _ Hf)).
  reflexivity.
Qed.

(** The normalisation of BKK_Hospital_Congestion_ByDistrict.py, which
    takes its maximum over the values of [district_metrics], gives the
    same values as [choropleth_norm] over the written features: every
    key of [district_metrics] is a feature name and every feature name
    is a key. *)
Theorem congestion_norm_matches (feats : list feature) wcol hospitals communities :
  congestion_norm feats (district_metrics_run coords contains feats wcol hospitals communities)
  = choropleth_norm (metrics_get feats (district_metrics_run coords contains feats wcol hospitals communities)).
Proof.
  remember (district_metrics_run coords contains feats wcol hospitals communities) as m eqn:Hm.
  assert (Hgm : global_max (map (fun kv : option string * Metrics => sum_hospital_weights kv.2)
                               (map_to_list m))
                = global_max (map sum_hospital_weights (metrics_get feats m))).
  { apply global_max_same. intros x. unfold metrics_get. rewrite map_map, !in_map_iff. split.
    - intros [[k v] [Hx Hkv]]. simpl in Hx. subst x.
      apply list_elem_of_In, elem_of_map_to_list in Hkv.
      pose proof Hkv as Hk. rewrite Hm in Hk. apply district_metrics_dom in Hk.
      apply in_map_iff in Hk as [f [Hf Hin]].
      exists f. split; [|exact Hin]. rewrite Hf, Hkv. reflexivity.
    - intros [f [Hx Hf]]. subst x.
      pose proof (district_metrics_lookup coords contains feats wcol hospitals communities
                    (f_name f) (in_map f_name _ _ Hf)) as Hl.
      rewrite <- Hm in Hl.
      exists (f_name f, default zero_metrics (m !! f_name f)). split; [reflexivity|].
      apply list_elem_of_In, elem_of_map_to_list. rewrite Hl. reflexivity. }
  unfold congestion_norm, choropleth_norm. cbv zeta. rewrite Hgm.
  unfold metrics_get. rewrite !map_map. reflexivity.
Qed.

(** The connection layer of BKK_Hospital_Default.py never hits a
    missing label and draws exactly one line per community with an
    assigned hospital, in order, from the community's point to the
    hospital's point. *)
Theorem connections_one_per_assignment communities hospitals res :
  comm_assigned_default coords geodesic communities hospitals = Some res ->
  exists lines, connections coords communities hospitals res = Some lines /\
    length lines = assigned_count res /\
    Forall2 (fun (r : entry) (l : Pt * Pt) => exists comm i hosp,
               communities !! r.1.1 = Some comm /\ r.1.2 = Some i /\
               hospitals !! i = Some hosp /\
               coords comm = Some l.1 /\ coords hosp = Some l.2)
            (filter (fun r : entry => is_Some r.1.2) res) lines.
Proof.
  unfold comm_assigned_default. intros Hrun. apply comm_assigned_entries in Hrun.
  unfold assigned_count.
  induction Hrun as [|r rs Hr Hrs IH].
  - exists []. split; [reflexivity|]. split; [reflexivity|]. constructor.
  - destruct IH as (lines & Hl & Hlen & Hf).
    destruct r as [[ci [hi|]] d].
    + destruct Hr as (comm & Hc & _ & Hch). simpl in Hc, Hch.
      destruct (Hch hi eq_refl) as ([cp Hcp] & h & q & Hin & Hq).
      apply indexed_in in Hin.
      exists ((cp, q) :: lines). split; [|split].
      * simpl. rewrite Hc, Hin, Hcp, Hq, Hl. reflexivity.
      * rewrite filter_cons, decide_True by (simpl; eauto). simpl. congruence.
      * rewrite filter_cons, decide_True by (simpl; eauto).
        constructor; [|exact Hf]. exists comm, hi, h. simpl. auto 6.
    + exists lines. split; [exact Hl|].
      rewrite filter_cons, decide_False by (simpl; intros [? ?]; discriminate). auto.
Qed.

End Runs.


End PipelineProofs.

(* ================================================================== *)
Module ExtraExamples.
Import Assign Weights Districts Writeback Layers Sample Detect Html DetectProofs HtmlProofs
       PipelineProofs.

Lemma detect_name_field_priority_witness :
  name_candidates = ["amp_th"%string] ++ "district"%string :: skipn 2 name_candidates /\
  detect_name_field [Some ["name"; "district"]%string] = Some "district"%string /\
  detect_name_field_ratchathewi [Some ["name"; "district"]%string] = "district"%string.
Proof.
  assert (H1 : name_candidates = ["amp_th"%string] ++ "district"%string :: skipn 2 name_candidates)
    by reflexivity.
  assert (H2 : In "district"%string (default [] (Some ["name"; "district"]%string)))
    by (vm_compute; right; left; reflexivity).
  assert (H3 : forall c', In c' ["amp_th"%string] ->
                 ~ In c' (default [] (Some ["name"; "district"]%string))).
  { intros c' [<-|[]]. vm_compute. intros [H|[H|[]]]; discriminate. }
  split; [exact H1|].
  exact (detect_name_field_priority (Some ["name"; "district"]%string) [] ["amp_th"%string]
           "district"%string (skipn 2 name_candidates) H1 H2 H3).
Defined.

Lemma escape_no_markup_witness :
  In "&"%char (escape (PyFloat.list_of "<b>")) /\
  ("&"%char <> "<"%char /\ "&"%char <> ">"%char /\ "&"%char <> quote_char /\ "&"%char <> "'"%char).
Proof.
  assert (H : In "&"%char (escape (PyFloat.list_of "<b>"))) by (vm_compute; left; reflexivity).
  split; [exact H|]. exact (escape_no_markup (PyFloat.list_of "<b>") "&"%char H).
Defined.

Lemma escape_injective_witness :
  escape (PyFloat.list_of "a<b") = escape (PyFloat.list_of "a<b") /\
  PyFloat.list_of "a<b" = PyFloat.list_of "a<b".
Proof.
  assert (H : escape (PyFloat.list_of "a<b") = escape (PyFloat.list_of "a<b")) by reflexivity.
  split; [exact H|]. exact (escape_injective _ _ H).
Defined.

Lemma default_weight_column_witness :
  Pipeline.default_run site_coords grid_dist rect_contains bkk_feats communities3 hospitals2
  = Some (bkk_out.1.1, bkk_out.1.2, bkk_out.2) /\
  (forall i, (i < length hospitals2)%nat ->
     bkk_out.1.2 !! i = Some (length (filter (fun r : entry => r.1.2 = Some i) bkk_out.1.1))) /\
  (forall i, (length hospitals2 <= i)%nat -> bkk_out.1.2 !! i = None) /\
  (forall i h, hospitals2 !! i = Some h -> site_coords h = None -> bkk_out.1.2 !! i = Some 0%nat).
Proof.
  assert (H : Pipeline.default_run site_coords grid_dist rect_contains bkk_feats communities3 hospitals2
              = Some (bkk_out.1.1, bkk_out.1.2, bkk_out.2)) by (vm_compute; reflexivity).
  split; [exact H|].
  exact (default_weight_column site_coords grid_dist rect_contains bkk_feats communities3 hospitals2
           _ _ _ H).
Defined.

Lemma csmbs_choice_eligible_witness :
  comm_assigned_csmbs site_coords grid_dist csmbs_accept communities3 hospitals2 = Some csmbs_res /\
  (forall r i, In r csmbs_res -> r.1.2 = Some i ->
     exists h q, hospitals2 !! i = Some h /\ csmbs_accept h = true /\ site_coords h = Some q).
Proof.
  assert (H : comm_assigned_csmbs site_coords grid_dist csmbs_accept communities3 hospitals2
              = Some csmbs_res) by (vm_compute; reflexivity).
  split; [exact H|].
  exact (csmbs_choice_eligible site_coords grid_dist csmbs_accept communities3 hospitals2 _ H).
Defined.

Lemma csmbs_weight_column_witness :
  Pipeline.csmbs_run site_coords grid_dist rect_contains csmbs_accept None bkk_feats communities3 hospitals2
  = Some (csmbs_out.1.1, csmbs_out.1.2, csmbs_out.2) /\
  (forall i, csmbs_out.1.2 !! i
     = match hospitals2 !! i with
       | Some h => if csmbs_accept h
                   then Some (length (filter (fun r : entry => r.1.2 = Some i) csmbs_out.1.1))
                   else None
       | None => None
       end).
Proof.
  assert (H : Pipeline.csmbs_run site_coords grid_dist rect_contains csmbs_accept None bkk_feats
                communities3 hospitals2
              = Some (csmbs_out.1.1, csmbs_out.1.2, csmbs_out.2)) by (vm_compute; reflexivity).
  split; [exact H|].
  exact (csmbs_weight_column site_coords grid_dist rect_contains csmbs_accept None bkk_feats
           communities3 hospitals2 _ _ _ H).
Defined.

Lemma connections_one_per_assignment_witness :
  comm_assigned_default site_coords grid_dist communities3 hospitals2 = Some sample_res /\
  exists lines, connections site_coords communities3 hospitals2 sample_res = Some lines /\
    length lines = assigned_count sample_res /\
    Forall2 (fun (r : entry) (l : (Q * Q) * (Q * Q)) => exists comm i hosp,
               communities3 !! r.1.1 = Some comm /\ r.1.2 = Some i /\
               hospitals2 !! i = Some hosp /\
               site_coords comm = Some l.1 /\ site_coords hosp = Some l.2)
            (filter (fun r : entry => is_Some r.1.2) sample_res) lines.
Proof.
  assert (H : comm_assigned_default site_coords grid_dist communities3 hospitals2
              = Some sample_res) by (vm_compute; reflexivity).
  split; [exact H|].
  exact (connections_one_per_assignment site_coords grid_dist communities3 hospitals2 _ H).
Defined.


Lemma truthy_digit_string_witness :
  (PyFloat.list_of "007"%string <> [] /\ forallb PyFloat.is_digit (PyFloat.list_of "007"%string) = true) /\
  Truthy.truthy (Some (string_of_list_ascii (PyFloat.list_of "007"%string))) =
    (0 <? fold_left (fun a c => (a * 10 + PyFloat.digit_val c)%N)
                    (PyFloat.list_of "007"%string) 0%N)%N.
Proof.
  split; [split; [discriminate|reflexivity]|].
  apply TruthyProofs.truthy_digit_string; [discriminate|reflexivity].
Defined.

End ExtraExamples.
